(** * storekit-go: the receipt verification client (client.go)

    A shallow embedding of [client.go] and of the few Go standard library
    functions whose behaviour the client relies on ([bytes.Map],
    [utf8.DecodeRune], [utf8.AppendRune], [unicode.IsControl]), followed by
    the properties of the verification protocol. *)

From Stdlib Require Import ZArith List Lia Bool String.
From Stdlib Require Import Init.Byte.
From stdpp Require Import base gmap strings list.

Local Open Scope Z_scope.

(** ** Bytes and runes *)

(** A Go [byte] is [Byte.byte]; its numeric value is read with
    [Z_of_byte].  Go's conversion [byte(x)] of an integer keeps the low
    eight bits. *)
Definition Z_of_byte (b : byte) : Z := Z.of_N (Byte.to_N b).

Definition byte_of_Z (z : Z) : byte :=
  match Byte.of_N (Z.to_N (z mod 256)) with
  | Some b => b
  | None => x00
  end.

(** Go's [int32(x)] on a value that may have left the 32-bit range. *)
Definition int32 (z : Z) : Z := (z + 2 ^ 31) mod 2 ^ 32 - 2 ^ 31.

(** Go's [uint32(r)] of an [int32]. *)
Definition uint32 (z : Z) : Z := z mod 2 ^ 32.

Module utf8.

Definition RuneError : Z := 0xFFFD.
Definition RuneSelf : Z := 0x80.
Definition MaxRune : Z := 0x10FFFF.

Definition surrogateMin : Z := 0xD800.
Definition surrogateMax : Z := 0xDFFF.

Definition t1 : Z := 0x00.
Definition tx : Z := 0x80.
Definition t2 : Z := 0xC0.
Definition t3 : Z := 0xE0.
Definition t4 : Z := 0xF0.
Definition t5 : Z := 0xF8.

Definition maskx : Z := 0x3F.
Definition mask2 : Z := 0x1F.
Definition mask3 : Z := 0x0F.
Definition mask4 : Z := 0x07.

Definition rune1Max : Z := 0x7F.
Definition rune2Max : Z := 0x7FF.
Definition rune3Max : Z := 0xFFFF.

Definition locb : Z := 0x80.
Definition hicb : Z := 0xBF.

(** Entries of the [first] table: the low three bits give the width of
    the sequence, the high four bits index [acceptRanges]. *)
Definition xx : Z := 0xF1.
Definition as_ : Z := 0xF0.
Definition s1 : Z := 0x02.
Definition s2 : Z := 0x13.
Definition s3 : Z := 0x03.
Definition s4 : Z := 0x23.
Definition s5 : Z := 0x34.
Definition s6 : Z := 0x04.
Definition s7 : Z := 0x44.

(** The 256-entry table [first], row by row. *)
Definition first (p0 : Z) : Z :=
  if p0 <? 0x80 then as_
  else if p0 <? 0xC2 then xx
  else if p0 <? 0xE0 then s1
  else if p0 =? 0xE0 then s2
  else if p0 <? 0xED then s3
  else if p0 =? 0xED then s4
  else if p0 <? 0xF0 then s3
  else if p0 =? 0xF0 then s5
  else if p0 <? 0xF4 then s6
  else if p0 =? 0xF4 then s7
  else xx.

Record acceptRange := { lo : Z; hi : Z }.

(** The 16-entry table [acceptRanges]; entries past the fifth are zero. *)
Definition acceptRanges (i : Z) : acceptRange :=
  if i =? 0 then {| lo := locb; hi := hicb |}
  else if i =? 1 then {| lo := 0xA0; hi := hicb |}
  else if i =? 2 then {| lo := locb; hi := 0x9F |}
  else if i =? 3 then {| lo := 0x90; hi := hicb |}
  else if i =? 4 then {| lo := locb; hi := 0x8F |}
  else {| lo := 0; hi := 0 |}.

(** [utf8.DecodeRune]: the first code point of [p] and its width in
    bytes; an invalid or truncated sequence yields [(RuneError, 1)], the
    empty slice [(RuneError, 0)]. *)
Definition DecodeRune (p : list byte) : Z * nat :=
  match p with
  | [] => (RuneError, 0%nat)
  | c0 :: p1 =>
    let p0 := Z_of_byte c0 in
    let n := Z.of_nat (length p) in
    let x := first p0 in
    if x >=? as_ then
      let mask := Z.shiftr (int32 (Z.shiftl x 31)) 31 in
      (Z.lor (Z.land p0 (Z.lnot mask)) (Z.land RuneError mask), 1%nat)
    else
      let sz := Z.land x 7 in
      let accept := acceptRanges (Z.shiftr x 4) in
      if n <? sz then (RuneError, 1%nat)
      else
        match p1 with
        | [] => (RuneError, 1%nat)
        | c1 :: p2 =>
          let b1 := Z_of_byte c1 in
          if (b1 <? lo accept) || (hi accept <? b1) then (RuneError, 1%nat)
          else if sz <=? 2 then
            (Z.lor (Z.shiftl (Z.land p0 mask2) 6) (Z.land b1 maskx), 2%nat)
          else
            match p2 with
            | [] => (RuneError, 1%nat)
            | c2 :: p3 =>
              let b2 := Z_of_byte c2 in
              if (b2 <? locb) || (hicb <? b2) then (RuneError, 1%nat)
              else if sz <=? 3 then
                (Z.lor (Z.lor (Z.shiftl (Z.land p0 mask3) 12)
                              (Z.shiftl (Z.land b1 maskx) 6))
                       (Z.land b2 maskx), 3%nat)
              else
                match p3 with
                | [] => (RuneError, 1%nat)
                | c3 :: _ =>
                  let b3 := Z_of_byte c3 in
                  if (b3 <? locb) || (hicb <? b3) then (RuneError, 1%nat)
                  else
                    (Z.lor (Z.lor (Z.lor (Z.shiftl (Z.land p0 mask4) 18)
                                         (Z.shiftl (Z.land b1 maskx) 12))
                                  (Z.shiftl (Z.land b2 maskx) 6))
                           (Z.land b3 maskx), 4%nat)
                end
            end
        end
  end.

(** The bytes [utf8.AppendRune] appends for [r]. *)
Definition encode (r : Z) : list byte :=
  let i := uint32 r in
  if i <=? rune1Max then [byte_of_Z r]
  else if i <=? rune2Max then
    [byte_of_Z (Z.lor t2 (Z_of_byte (byte_of_Z (Z.shiftr r 6))));
     byte_of_Z (Z.lor tx (Z.land (Z_of_byte (byte_of_Z r)) maskx))]
  else
    let three (r : Z) :=
      [byte_of_Z (Z.lor t3 (Z_of_byte (byte_of_Z (Z.shiftr r 12))));
       byte_of_Z (Z.lor tx (Z.land (Z_of_byte (byte_of_Z (Z.shiftr r 6))) maskx));
       byte_of_Z (Z.lor tx (Z.land (Z_of_byte (byte_of_Z r)) maskx))] in
    if (MaxRune <? i) || ((surrogateMin <=? i) && (i <=? surrogateMax))
    then three RuneError
    else if i <=? rune3Max then three r
    else
      [byte_of_Z (Z.lor t4 (Z_of_byte (byte_of_Z (Z.shiftr r 18))));
       byte_of_Z (Z.lor tx (Z.land (Z_of_byte (byte_of_Z (Z.shiftr r 12))) maskx));
       byte_of_Z (Z.lor tx (Z.land (Z_of_byte (byte_of_Z (Z.shiftr r 6))) maskx));
       byte_of_Z (Z.lor tx (Z.land (Z_of_byte (byte_of_Z r)) maskx))].

Definition AppendRune (p : list byte) (r : Z) : list byte := p ++ encode r.

(** [utf8.ValidRune]. *)
Definition ValidRune (r : Z) : bool :=
  ((0 <=? r) && (r <? surrogateMin)) || ((surrogateMax <? r) && (r <=? MaxRune)).

End utf8.

Module unicode.

Definition MaxLatin1 : Z := 0xFF.

(** [unicode.IsControl]: the [pC] entries of the Latin-1 [properties]
    table are U+0000..U+001F and U+007F..U+009F; nothing above Latin-1 is
    a control character. *)
Definition IsControl (r : Z) : bool :=
  if uint32 r <=? MaxLatin1 then
    let c := Z_of_byte (byte_of_Z r) in
    (c <=? 0x1F) || ((0x7F <=? c) && (c <=? 0x9F))
  else false.

End unicode.

Module bytes.

(** The loop of [bytes.Map]; [s] is the unread part [s[i:]] and [b] the
    output built so far.  Each round consumes at least one byte, so
    [length s] rounds of fuel are enough. *)
Fixpoint Map_loop (fuel : nat) (mapping : Z -> Z) (s b : list byte) : list byte :=
  match fuel, s with
  | S fuel', c :: _ =>
    let '(r, wid) :=
      if utf8.RuneSelf <=? Z_of_byte c then utf8.DecodeRune s
      else (Z_of_byte c, 1%nat) in
    let r := mapping r in
    let b := if 0 <=? r then utf8.AppendRune b r else b in
    Map_loop fuel' mapping (drop wid s) b
  | _, _ => b
  end.

Definition Map (mapping : Z -> Z) (s : list byte) : list byte :=
  Map_loop (length s) mapping s [].

End bytes.

(** The code points of a byte slice, as repeated [utf8.DecodeRune] reads
    them (what [for len(p) > 0 { r, size := utf8.DecodeRune(p); p = p[size:] }]
    visits). *)
Fixpoint runes_loop (fuel : nat) (s : list byte) : list Z :=
  match fuel, s with
  | S fuel', _ :: _ =>
    let '(r, wid) := utf8.DecodeRune s in
    r :: runes_loop fuel' (drop wid s)
  | _, _ => []
  end.

Definition runes (s : list byte) : list Z := runes_loop (length s) s.

(** The UTF-8 text of a sequence of code points. *)
Definition encode_runes (rs : list Z) : list byte := concat (map utf8.encode rs).

(** ** Go values used by the client *)

(** A Go [error] value; [nil] is [None] of [option error].  [LibError] is
    an error made by a library the client calls (encoding/json, net/http,
    io), [New] and [Wrapped] are what [errors.New] and [errors.Wrap] of
    github.com/pkg/errors build. *)
Inductive error : Type :=
| LibError (msg : string)
| New (msg : string)
| Wrapped (cause : error) (msg : string).

Module errors.

(** [errors.Wrap] returns [nil] when [err] is [nil]. *)
Definition Wrap (err : option error) (message : string) : option error :=
  match err with
  | None => None
  | Some e => Some (Wrapped e message)
  end.

End errors.

(** A Go call returning [(value, error)]. *)
Inductive result (A : Type) : Type :=
| Ok (a : A)
| Fail (e : error).
Arguments Ok {A} a.
Arguments Fail {A} e.

(** A [[]byte]: [None] is the nil slice.  Reading a nil slice finds no
    element. *)
Definition slice : Type := option (list byte).

Definition elems (b : slice) : list byte := default [] b.

(** A [*bytes.Reader] over [s] with read position [i]; a request sends
    what is still unread. *)
Record Reader := { s : list byte; i : nat }.

Definition NewReader (b : list byte) : Reader := {| s := b; i := 0 |}.

Definition unread (r : Reader) : list byte := drop (i r) (s r).

(** ** The client and the store *)

Definition sandboxReceiptVerificationURL : string :=
  "https://sandbox.itunes.apple.com/verifyReceipt".
Definition productionReceiptVerificationURL : string :=
  "https://buy.itunes.apple.com/verifyReceipt".

Record client := {
  verificationURL : string;
  autofixEnvironment : bool
}.

(** A [*client] is an address in the store; an address the store does not
    hold stands for [nil], and reading a field through it panics. *)
Definition loc : Type := positive.

(** One invocation of the transport ([post]): the URL and the body it was
    asked to send. *)
Record PostCall := { call_url : string; call_body : list byte }.

(** The state a call runs in: the clients in memory and the transport calls
    made so far. *)
Record World := {
  heap : gmap loc client;
  log : list PostCall
}.

(** Computations over the state; [None] is a panic. *)
Definition M (A : Type) : Type := World -> option (A * World).

Definition ret {A : Type} (a : A) : M A := fun w => Some (a, w).

Definition bind {A B : Type} (m : M A) (k : A -> M B) : M B := fun w =>
  match m w with
  | Some (a, w') => k a w'
  | None => None
  end.

Notation "x <- m ;; k" := (bind m (fun x => k))
  (at level 60, m at next level, right associativity).

(** A nil pointer dereference. *)
Definition panic {A : Type} : M A := fun _ => None.

Definition load (c : loc) : M client := fun w =>
  match heap w !! c with
  | Some v => Some (v, w)
  | None => None
  end.

Definition store (c : loc) (v : client) : M unit := fun w =>
  match heap w !! c with
  | Some _ => Some (tt, {| heap := <[c := v]> (heap w); log := log w |})
  | None => None
  end.

Definition alloc (v : client) : M loc := fun w =>
  let c := fresh (dom (heap w)) in
  Some (c, {| heap := <[c := v]> (heap w); log := log w |}).

(** The state once one more transport call is on record. *)
Definition logged (url : string) (body : list byte) (w : World) : World :=
  {| heap := heap w;
     log := log w ++ [{| call_url := url; call_body := body |}] |}.

Definition record_call (url : string) (body : list byte) : M unit := fun w =>
  Some (tt, logged url body w).

Definition calls_so_far : M (list PostCall) := fun w => Some (log w, w).

(** [NewVerificationClient]: [&client{...}] is a new object. *)
Definition NewVerificationClient : M loc :=
  alloc {| verificationURL := productionReceiptVerificationURL;
           autofixEnvironment := true |}.

(** The three configuration methods assign one field of the receiver and
    return the receiver. *)
Definition OnSandboxEnv (c : loc) : M loc :=
  v <- load c ;;
  _ <- store c {| verificationURL := sandboxReceiptVerificationURL;
                 autofixEnvironment := autofixEnvironment v |} ;;
  ret c.

Definition OnProductionEnv (c : loc) : M loc :=
  v <- load c ;;
  _ <- store c {| verificationURL := productionReceiptVerificationURL;
                 autofixEnvironment := autofixEnvironment v |} ;;
  ret c.

Definition WithoutEnvAutoFix (c : loc) : M loc :=
  v <- load c ;;
  _ <- store c {| verificationURL := verificationURL v;
                 autofixEnvironment := false |} ;;
  ret c.

Definition isSandbox (c : loc) : M bool :=
  v <- load c ;;
  ret (String.eqb (verificationURL v) sandboxReceiptVerificationURL).

Definition isProduction (c : loc) : M bool :=
  v <- load c ;;
  ret (String.eqb (verificationURL v) productionReceiptVerificationURL).

(** The URL of a client is one of the two constants. *)
Definition known_endpoint (v : client) : Prop :=
  verificationURL v = sandboxReceiptVerificationURL \/
  verificationURL v = productionReceiptVerificationURL.

(** A chain of configuration calls [c.OnSandboxEnv().WithoutEnvAutoFix()...],
    each applied to what the previous one returned. *)
Inductive mutator : Type :=
| CallOnSandboxEnv
| CallOnProductionEnv
| CallWithoutEnvAutoFix.

Definition call_mutator (m : mutator) (c : loc) : M loc :=
  match m with
  | CallOnSandboxEnv => OnSandboxEnv c
  | CallOnProductionEnv => OnProductionEnv c
  | CallWithoutEnvAutoFix => WithoutEnvAutoFix c
  end.

Fixpoint chain (ms : list mutator) (c : loc) : M loc :=
  match ms with
  | [] => ret c
  | m :: ms' => c' <- call_mutator m c ;; chain ms' c'
  end.

(** ** What the client takes from outside *)

(** Modelled from the spec: the two status codes of the package's status
    table that the client inspects (the table itself is declared in another
    file of the package): 21007, a sandbox receipt sent to production, and
    21008, a production receipt sent to sandbox. *)
Definition ReceiptResponseStatusSandboxReceiptSentToProduction : Z := 21007.
Definition ReceiptResponseStatusProductionReceiptSentToSandbox : Z := 21008.

(** An HTTP request as [post] builds it. *)
Record Request := {
  Method : string;
  URL : string;
  ContentType : string;
  Body : list byte
}.

(** What [http.DefaultClient.Do] followed by [ioutil.ReadAll] can come back
    with: no response at all, or a response with its status code, status
    line and the outcome of draining its body. *)
Inductive RoundTrip : Type :=
| DoError (e : error)
| DoResponse (StatusCode : Z) (StatusLine : string) (read : result (list byte)).

Definition StatusOK : Z := 200.

(** The request and response types of the package, the JSON codec and the
    network.  [network] answers a request given the context it was sent
    under and the transport calls made before it, so that repeated calls
    may be answered differently. *)
Class Externals := {
  ReceiptRequest : Type;
  ReceiptResponse : Type;
  Status : ReceiptResponse -> Z;
  context_Context : Type;
  json_Marshal : ReceiptRequest -> result (list byte);
  json_Unmarshal : list byte -> result ReceiptResponse;
  http_NewRequest : string -> string -> option error;
  network : list PostCall -> context_Context -> Request -> RoundTrip
}.

(** ** The verification protocol *)

Section Protocol.

Context `{E : Externals}.

(** The mapping [parseResponse] hands to [bytes.Map]. *)
Definition dropControl (r : Z) : Z :=
  if unicode.IsControl r then -1 else r.

(** [parseResponse]: [json.Unmarshal] of the body mapped through
    [dropControl], into a new [ReceiptResponse]. *)
Definition parseResponse (body : slice) : option ReceiptResponse * option error :=
  match json_Unmarshal (bytes.Map dropControl (elems body)) with
  | Fail err => (None, errors.Wrap (Some err) "could not unmarshal app store response")
  | Ok resp => (Some resp, None)
  end.

(** [post]: one HTTP POST of the unread bytes of [requestBuf] to [url].  The
    invocation is put on record first; the network then sees the calls made
    before this one. *)
Definition post (c : loc) (ctx : context_Context) (requestBuf : Reader) (url : string)
  : M (slice * option error) :=
  history <- calls_so_far ;;
  _ <- record_call url (unread requestBuf) ;;
  match http_NewRequest "POST" url with
  | Some err => ret (None, Some err)
  | None =>
    let req := {| Method := "POST"; URL := url;
                  ContentType := "application/json";
                  Body := unread requestBuf |} in
    match network history ctx req with
    | DoError err =>
      ret (None, errors.Wrap (Some err) "could not connect to app store server")
    | DoResponse code line read =>
      if negb (code =? StatusOK) then
        ret (None, Some (New ("app store http error (" ++ line ++ ")")))
      else
        match read with
        | Fail err =>
          ret (None, errors.Wrap (Some err) "could not read app store response")
        | Ok body => ret (Some body, None)
        end
    end
  end.

(** [queryStore]: [post], then [parseResponse] unless [post] failed. *)
Definition queryStore (c : loc) (ctx : context_Context) (requestBuf : Reader) (url : string)
  : M (slice * option ReceiptResponse * option error) :=
  r <- post c ctx requestBuf url ;;
  let '(body, err) := r in
  match err with
  | Some _ => ret (body, None, err)
  | None =>
    let '(resp, err) := parseResponse body in
    ret (body, resp, err)
  end.

(** [checkResendNeeded]: the switch on [resp.Status]; [newUrl] keeps its
    zero value, the empty string, when no resend is needed. *)
Definition checkResendNeeded (c : loc) (resp : option ReceiptResponse)
  : M (bool * string) :=
  match resp with
  | None => panic
  | Some r =>
    if Status r =? ReceiptResponseStatusSandboxReceiptSentToProduction then
      p <- isProduction c ;;
      if p then ret (true, sandboxReceiptVerificationURL)
      else ret (false, EmptyString)
    else if Status r =? ReceiptResponseStatusProductionReceiptSentToSandbox then
      p <- isSandbox c ;;
      if p then ret (true, productionReceiptVerificationURL)
      else ret (false, EmptyString)
    else ret (false, EmptyString)
  end.

(** [Verify]: marshal, first attempt at [c.verificationURL], and, with
    [c.autofixEnvironment] set, a second attempt at the URL
    [checkResendNeeded] gives, over a new reader on the same [reqJSON]. *)
Definition Verify (c : loc) (ctx : context_Context) (receiptRequest : ReceiptRequest)
  : M (slice * option ReceiptResponse * option error) :=
  match json_Marshal receiptRequest with
  | Fail err =>
    ret (None, None, errors.Wrap (Some err) "could not marshal receipt request")
  | Ok reqJSON =>
    let buf := NewReader reqJSON in
    v <- load c ;;
    r <- queryStore c ctx buf (verificationURL v) ;;
    let '(body, resp, err) := r in
    match err with
    | Some _ => ret (body, resp, err)
    | None =>
      v <- load c ;;
      if autofixEnvironment v then
        d <- checkResendNeeded c resp ;;
        let '(resendNeeded, newUrl) := d in
        if resendNeeded then
          let buf := NewReader reqJSON in
          queryStore c ctx buf newUrl
        else ret (body, resp, err)
      else ret (body, resp, err)
    end
  end.

(** What [queryStore] makes of the outcome of [post]. *)
Definition attempt_of (body : slice) (err : option error)
  : slice * option ReceiptResponse * option error :=
  match err with
  | Some _ => (body, None, err)
  | None => let '(resp, err') := parseResponse body in (body, resp, err')
  end.

(** The decision of [checkResendNeeded] for a client [v] and a status. *)
Definition resend_decision (v : client) (status : Z) : bool * string :=
  if status =? ReceiptResponseStatusSandboxReceiptSentToProduction then
    if String.eqb (verificationURL v) productionReceiptVerificationURL
    then (true, sandboxReceiptVerificationURL) else (false, EmptyString)
  else if status =? ReceiptResponseStatusProductionReceiptSentToSandbox then
    if String.eqb (verificationURL v) sandboxReceiptVerificationURL
    then (true, productionReceiptVerificationURL) else (false, EmptyString)
  else (false, EmptyString).

End Protocol.

(** ** An instance to run the protocol on *)

(** Requests are either unserializable or carry their own JSON text; a
    response body decodes when it is a single digit, ["7"] and ["8"] standing
    for the two environment-mismatch statuses and any other byte for status
    [0]; the network answers by URL. *)
Module Demo.

Definition unmarshal (data : list byte) : result Z :=
  match data with
  | [b] =>
    if Z_of_byte b =? 0x37 then Ok 21007
    else if Z_of_byte b =? 0x38 then Ok 21008
    else Ok 0
  | _ => Fail (LibError "unexpected end of JSON input")
  end.

Definition marshal (r : option (list byte)) : result (list byte) :=
  match r with
  | Some b => Ok b
  | None => Fail (LibError "json: unsupported type")
  end.

Definition by_url (production sandbox : RoundTrip)
  (history : list PostCall) (ctx : unit) (req : Request) : RoundTrip :=
  if String.eqb (URL req) productionReceiptVerificationURL then production
  else sandbox.

Definition externals (production sandbox : RoundTrip) : Externals :=
  {| ReceiptRequest := option (list byte);
     ReceiptResponse := Z;
     Status := fun r => r;
     context_Context := unit;
     json_Marshal := marshal;
     json_Unmarshal := unmarshal;
     http_NewRequest := fun _ _ => None;
     network := by_url production sandbox |}.

Definition answer (text : list byte) : RoundTrip :=
  DoResponse 200 "200 OK" (Ok text).

Definition seven : list byte := ["7"%byte].
Definition eight : list byte := ["8"%byte].
Definition zero : list byte := ["0"%byte].
Definition receipt : list byte := ["{"%byte; "}"%byte].

Definition production_client : client :=
  {| verificationURL := productionReceiptVerificationURL;
     autofixEnvironment := true |}.
Definition disabled_client : client :=
  {| verificationURL := productionReceiptVerificationURL;
     autofixEnvironment := false |}.

Definition reset : RoundTrip := DoError (LibError "connection reset by peer").

Definition world (v : client) : World :=
  {| heap := {[ 1%positive := v ]}; log := [] |}.

Definition sent (url : string) : PostCall :=
  {| call_url := url; call_body := receipt |}.

End Demo.

(** ** Outcomes of an attempt *)

Section Outcomes.

Context `{E : Externals}.

(** The errors [post] can return for a call to [url]: the error of
    [http.NewRequest] as it is, a wrapped connection error, the HTTP status
    error, or a wrapped read error. *)
Definition transport_error (url : string) (e : error) : Prop :=
  http_NewRequest "POST" url = Some e \/
  (exists e0, e = Wrapped e0 "could not connect to app store server") \/
  (exists line, e = New ("app store http error (" ++ line ++ ")")) \/
  (exists e0, e = Wrapped e0 "could not read app store response").

(** The three shapes of what an attempt at [url] returns: a body with its
    decoding, a body with the error of decoding it, or a transport error
    alone. *)
Definition attempt_outcome (url : string) (body : slice)
    (resp : option ReceiptResponse) (err : option error) : Prop :=
  (exists raw r,
     body = Some raw /\ resp = Some r /\ err = None /\
     json_Unmarshal (bytes.Map dropControl raw) = Ok r) \/
  (exists raw e0,
     body = Some raw /\ resp = None /\
     err = Some (Wrapped e0 "could not unmarshal app store response") /\
     json_Unmarshal (bytes.Map dropControl raw) = Fail e0) \/
  (exists e, body = None /\ resp = None /\ err = Some e /\ transport_error url e).

End Outcomes.

(** Further runs of the protocol. *)
Module Cases.

Definition unavailable : RoundTrip :=
  DoResponse 503 "503 Service Unavailable" (Ok Demo.seven).

Definition other_client : client :=
  {| verificationURL := sandboxReceiptVerificationURL;
     autofixEnvironment := false |}.

Definition two_clients : World :=
  {| heap := {[ 1%positive := Demo.production_client;
                2%positive := other_client ]};
     log := [] |}.

Definition pretty : list byte :=
  ["{"%byte; byte_of_Z 0x0A; " "%byte; "}"%byte; byte_of_Z 0x7F].

End Cases.

(** ** Arithmetic reading of the bit operations *)

Lemma Z_of_byte_range (b : byte) : 0 <= Z_of_byte b < 256.
Proof.
  unfold Z_of_byte. pose proof (Byte.to_N_bounded b). lia.
Qed.

Lemma byte_of_Z_of_byte (b : byte) : byte_of_Z (Z_of_byte b) = b.
Proof.
  unfold byte_of_Z. rewrite Z.mod_small by apply Z_of_byte_range.
  unfold Z_of_byte. rewrite N2Z.id, Byte.of_to_N. reflexivity.
Qed.

Lemma Z_of_byte_of_Z (z : Z) : Z_of_byte (byte_of_Z z) = z mod 256.
Proof.
  unfold byte_of_Z, Z_of_byte.
  assert (Hr : 0 <= z mod 256 < 256) by (apply Z.mod_pos_bound; lia).
  destruct (Byte.of_N (Z.to_N (z mod 256))) as [b|] eqn:E.
  - apply Byte.to_of_N in E. rewrite E. lia.
  - pose proof (Byte.to_of_N_option_map (Z.to_N (z mod 256))) as H.
    rewrite E in H. simpl in H.
    destruct (N.leb_spec (Z.to_N (z mod 256)) 255); [discriminate | lia].
Qed.

Lemma land_shifted_low (h l k : Z) :
  0 <= k -> 0 <= l < 2 ^ k -> Z.land (h * 2 ^ k) l = 0.
Proof.
  intros Hk Hl. apply Z.bits_inj'. intros n Hn.
  rewrite Z.land_spec, Z.bits_0.
  destruct (Z.ltb_spec n k).
  - rewrite Z.mul_pow2_bits_low by lia. reflexivity.
  - rewrite <- (Z.mod_small l (2 ^ k)) by lia.
    rewrite Z.mod_pow2_bits_high by lia. apply andb_false_r.
Qed.

Lemma lor_shifted_low (h l k : Z) :
  0 <= k -> 0 <= l < 2 ^ k -> Z.lor (h * 2 ^ k) l = h * 2 ^ k + l.
Proof.
  intros Hk Hl. pose proof (Z.add_lor_land (h * 2 ^ k) l) as H.
  rewrite land_shifted_low in H by assumption. lia.
Qed.

Lemma land_low_mask (a k : Z) : 0 <= k -> Z.land a (2 ^ k - 1) = a mod 2 ^ k.
Proof.
  intros Hk. rewrite <- Z.land_ones by assumption.
  f_equal. rewrite Z.ones_equiv. lia.
Qed.

Lemma land_63 (a : Z) : Z.land a 63 = a mod 64.
Proof. exact (land_low_mask a 6 ltac:(lia)). Qed.
Lemma land_31 (a : Z) : Z.land a 31 = a mod 32.
Proof. exact (land_low_mask a 5 ltac:(lia)). Qed.
Lemma land_15 (a : Z) : Z.land a 15 = a mod 16.
Proof. exact (land_low_mask a 4 ltac:(lia)). Qed.
Lemma land_7 (a : Z) : Z.land a 7 = a mod 8.
Proof. exact (land_low_mask a 3 ltac:(lia)). Qed.


(** The code points [DecodeRune] assembles from two, three and four bytes. *)
Lemma rune2_arith (p0 b1 : Z) :
  Z.lor (Z.shiftl (Z.land p0 utf8.mask2) 6) (Z.land b1 utf8.maskx)
  = (p0 mod 32) * 64 + b1 mod 64.
Proof.
  unfold utf8.mask2, utf8.maskx. rewrite land_31, land_63.
  rewrite Z.shiftl_mul_pow2 by lia.
  apply (lor_shifted_low _ _ 6); [lia|]. apply Z.mod_pos_bound; lia.
Qed.

Lemma rune3_arith (p0 b1 b2 : Z) :
  Z.lor (Z.lor (Z.shiftl (Z.land p0 utf8.mask3) 12)
               (Z.shiftl (Z.land b1 utf8.maskx) 6))
        (Z.land b2 utf8.maskx)
  = (p0 mod 16) * 4096 + (b1 mod 64) * 64 + b2 mod 64.
Proof.
  unfold utf8.mask3, utf8.maskx. rewrite land_15, !land_63.
  rewrite !Z.shiftl_mul_pow2 by lia.
  pose proof (Z.mod_pos_bound b1 64 ltac:(lia)).
  pose proof (Z.mod_pos_bound b2 64 ltac:(lia)).
  rewrite (lor_shifted_low _ _ 12) by lia.
  replace (p0 mod 16 * 2 ^ 12 + b1 mod 64 * 2 ^ 6)
    with ((p0 mod 16 * 64 + b1 mod 64) * 2 ^ 6) by lia.
  rewrite (lor_shifted_low _ _ 6) by lia. lia.
Qed.

Lemma rune4_arith (p0 b1 b2 b3 : Z) :
  Z.lor (Z.lor (Z.lor (Z.shiftl (Z.land p0 utf8.mask4) 18)
                      (Z.shiftl (Z.land b1 utf8.maskx) 12))
               (Z.shiftl (Z.land b2 utf8.maskx) 6))
        (Z.land b3 utf8.maskx)
  = (p0 mod 8) * 262144 + (b1 mod 64) * 4096 + (b2 mod 64) * 64 + b3 mod 64.
Proof.
  unfold utf8.mask4, utf8.maskx. rewrite land_7, !land_63.
  rewrite !Z.shiftl_mul_pow2 by lia.
  pose proof (Z.mod_pos_bound b1 64 ltac:(lia)).
  pose proof (Z.mod_pos_bound b2 64 ltac:(lia)).
  pose proof (Z.mod_pos_bound b3 64 ltac:(lia)).
  rewrite (lor_shifted_low _ _ 18) by lia.
  replace (p0 mod 8 * 2 ^ 18 + b1 mod 64 * 2 ^ 12)
    with ((p0 mod 8 * 64 + b1 mod 64) * 2 ^ 12) by lia.
  rewrite (lor_shifted_low _ _ 12) by lia.
  replace ((p0 mod 8 * 64 + b1 mod 64) * 2 ^ 12 + b2 mod 64 * 2 ^ 6)
    with (((p0 mod 8 * 64 + b1 mod 64) * 64 + b2 mod 64) * 2 ^ 6) by lia.
  rewrite (lor_shifted_low _ _ 6) by lia. lia.
Qed.

(** The mask trick of [DecodeRune] for a one-byte result: the byte itself
    for an ASCII lead, [RuneError] for an invalid one. *)
Lemma lead_as (p0 : Z) :
  Z.lor (Z.land p0 (Z.lnot 0)) (Z.land utf8.RuneError 0) = p0.
Proof.
  change (Z.lnot 0) with (-1). rewrite Z.land_m1_r, Z.land_0_r. apply Z.lor_0_r.
Qed.

Lemma lead_xx (p0 : Z) :
  Z.lor (Z.land p0 (Z.lnot (-1))) (Z.land utf8.RuneError (-1)) = utf8.RuneError.
Proof.
  change (Z.lnot (-1)) with 0. rewrite Z.land_0_r, Z.land_m1_r. reflexivity.
Qed.

(** The classes of lead bytes, as the [first] table sorts them. *)
Lemma first_cases (p0 : Z) :
  0 <= p0 < 256 ->
  (p0 < 0x80 /\ utf8.first p0 = utf8.as_) \/
  ((0x80 <= p0 < 0xC2 \/ 0xF5 <= p0) /\ utf8.first p0 = utf8.xx) \/
  (0xC2 <= p0 < 0xE0 /\ utf8.first p0 = utf8.s1) \/
  (p0 = 0xE0 /\ utf8.first p0 = utf8.s2) \/
  ((0xE1 <= p0 < 0xED \/ 0xEE <= p0 < 0xF0) /\ utf8.first p0 = utf8.s3) \/
  (p0 = 0xED /\ utf8.first p0 = utf8.s4) \/
  (p0 = 0xF0 /\ utf8.first p0 = utf8.s5) \/
  (0xF1 <= p0 < 0xF4 /\ utf8.first p0 = utf8.s6) \/
  (p0 = 0xF4 /\ utf8.first p0 = utf8.s7).
Proof.
  intros H. unfold utf8.first.
  repeat match goal with
  | |- context [ if ?a <? ?b then _ else _ ] => destruct (Z.ltb_spec a b)
  | |- context [ if ?a =? ?b then _ else _ ] => destruct (Z.eqb_spec a b)
  end; lia.
Qed.

(** Evaluate what [DecodeRune] reads off a table entry [x]. *)
Ltac table_entry x :=
  let g := eval vm_compute in (x >=? utf8.as_) in
  change (x >=? utf8.as_) with g;
  let m := eval vm_compute in (Z.shiftr (int32 (Z.shiftl x 31)) 31) in
  change (Z.shiftr (int32 (Z.shiftl x 31)) 31) with m;
  let sz := eval vm_compute in (Z.land x 7) in
  change (Z.land x 7) with sz;
  let ar := eval vm_compute in (utf8.acceptRanges (Z.shiftr x 4)) in
  change (utf8.acceptRanges (Z.shiftr x 4)) with ar;
  cbn [utf8.lo utf8.hi].

Ltac bools_to_props :=
  repeat match goal with
  | H : (_ || _) = true |- _ => apply orb_true_iff in H
  | H : (_ || _) = false |- _ => apply orb_false_iff in H; destruct H
  | H : (_ && _) = true |- _ => apply andb_true_iff in H; destruct H
  | H : (_ && _) = false |- _ => apply andb_false_iff in H
  | H : (_ <? _) = true |- _ => apply Z.ltb_lt in H
  | H : (_ <? _) = false |- _ => apply Z.ltb_ge in H
  | H : (_ <=? _) = true |- _ => apply Z.leb_le in H
  | H : (_ <=? _) = false |- _ => apply Z.leb_gt in H
  | H : (_ =? _) = true |- _ => apply Z.eqb_eq in H
  | H : (_ =? _) = false |- _ => apply Z.eqb_neq in H
  end.

Ltac split_ifs :=
  repeat match goal with
  | |- context [ if ?c then _ else _ ] => destruct c eqn:?
  end.

Ltac decode_lead c0 :=
  let H0 := fresh "H0" in
  let Hf := fresh "Hf" in
  pose proof (Z_of_byte_range c0) as H0;
  unfold utf8.DecodeRune;
  destruct (first_cases (Z_of_byte c0) H0)
    as [[? Hf]|[[? Hf]|[[? Hf]|[[? Hf]|[[? Hf]|[[? Hf]|[[? Hf]|[[? Hf]|[? Hf]]]]]]]]];
  rewrite Hf;
  [ table_entry utf8.as_ | table_entry utf8.xx | table_entry utf8.s1
  | table_entry utf8.s2 | table_entry utf8.s3 | table_entry utf8.s4
  | table_entry utf8.s5 | table_entry utf8.s6 | table_entry utf8.s7 ];
  cbv beta iota zeta.


Ltac rune_arith :=
  rewrite ?lead_as, ?lead_xx, ?rune2_arith, ?rune3_arith, ?rune4_arith.

Ltac byte_ranges :=
  repeat match goal with
  | |- context [ Z_of_byte ?c ] =>
    lazymatch goal with
    | _ : 0 <= Z_of_byte c < 256 |- _ => fail
    | _ => pose proof (Z_of_byte_range c)
    end
  end.

Ltac zsolve := Z.div_mod_to_equations; lia.

Lemma DecodeRune_valid (p : list byte) :
  utf8.ValidRune (fst (utf8.DecodeRune p)) = true.
Proof.
  destruct p as [|c0 [|c1 [|c2 [|c3 p4]]]]; [reflexivity|..];
    decode_lead c0; split_ifs; cbn [fst]; rune_arith; try reflexivity;
    bools_to_props; byte_ranges;
    unfold utf8.ValidRune, utf8.surrogateMin, utf8.surrogateMax, utf8.MaxRune,
      utf8.locb, utf8.hicb in *;
    bools_to_props;
    apply orb_true_iff; rewrite !andb_true_iff, !Z.leb_le, !Z.ltb_lt;
    zsolve.
Qed.

(** [DecodeRune] on a well-formed sequence of each width. *)
Lemma DecodeRune_1 (c0 : byte) (rest : list byte) :
  Z_of_byte c0 < 0x80 ->
  utf8.DecodeRune (c0 :: rest) = (Z_of_byte c0, 1%nat).
Proof.
  intros H. decode_lead c0; rune_arith; try reflexivity; lia.
Qed.

Lemma DecodeRune_2 (c0 c1 : byte) (rest : list byte) :
  0xC2 <= Z_of_byte c0 < 0xE0 ->
  0x80 <= Z_of_byte c1 <= 0xBF ->
  utf8.DecodeRune (c0 :: c1 :: rest)
  = ((Z_of_byte c0 mod 32) * 64 + Z_of_byte c1 mod 64, 2%nat).
Proof.
  intros H Hb1. decode_lead c0; try lia.
  assert (Hn : 2 <= Z.of_nat (length (c0 :: c1 :: rest))) by (cbn [length]; lia).
  split_ifs; bools_to_props; rune_arith; try reflexivity; lia.
Qed.

Lemma DecodeRune_3 (c0 c1 c2 : byte) (rest : list byte) :
  0xE0 <= Z_of_byte c0 < 0xF0 ->
  0x80 <= Z_of_byte c1 <= 0xBF ->
  (Z_of_byte c0 = 0xE0 -> 0xA0 <= Z_of_byte c1) ->
  (Z_of_byte c0 = 0xED -> Z_of_byte c1 <= 0x9F) ->
  0x80 <= Z_of_byte c2 <= 0xBF ->
  utf8.DecodeRune (c0 :: c1 :: c2 :: rest)
  = ((Z_of_byte c0 mod 16) * 4096 + (Z_of_byte c1 mod 64) * 64
     + Z_of_byte c2 mod 64, 3%nat).
Proof.
  intros H Hb1 HE0 HED Hb2. decode_lead c0; try lia.
  all: assert (Hn : 3 <= Z.of_nat (length (c0 :: c1 :: c2 :: rest)))
    by (cbn [length]; lia).
  all: unfold utf8.locb, utf8.hicb.
  all: split_ifs; bools_to_props; rune_arith; try reflexivity; lia.
Qed.

Lemma DecodeRune_4 (c0 c1 c2 c3 : byte) (rest : list byte) :
  0xF0 <= Z_of_byte c0 <= 0xF4 ->
  0x80 <= Z_of_byte c1 <= 0xBF ->
  (Z_of_byte c0 = 0xF0 -> 0x90 <= Z_of_byte c1) ->
  (Z_of_byte c0 = 0xF4 -> Z_of_byte c1 <= 0x8F) ->
  0x80 <= Z_of_byte c2 <= 0xBF ->
  0x80 <= Z_of_byte c3 <= 0xBF ->
  utf8.DecodeRune (c0 :: c1 :: c2 :: c3 :: rest)
  = ((Z_of_byte c0 mod 8) * 262144 + (Z_of_byte c1 mod 64) * 4096
     + (Z_of_byte c2 mod 64) * 64 + Z_of_byte c3 mod 64, 4%nat).
Proof.
  intros H Hb1 HF0 HF4 Hb2 Hb3. decode_lead c0; try lia.
  all: assert (Hn : 4 <= Z.of_nat (length (c0 :: c1 :: c2 :: c3 :: rest)))
    by (cbn [length]; lia).
  all: unfold utf8.locb, utf8.hicb.
  all: split_ifs; bools_to_props; rune_arith; try reflexivity; lia.
Qed.

(** The width [DecodeRune] reports is at least one and never reaches past
    the slice. *)
Lemma DecodeRune_width (c0 : byte) (p : list byte) :
  (1 <= snd (utf8.DecodeRune (c0 :: p)) <= length (c0 :: p))%nat.
Proof.
  destruct p as [|c1 [|c2 [|c3 p4]]];
    decode_lead c0; split_ifs; cbn [snd length]; lia.
Qed.

(** The tag bits [AppendRune] sets on each byte. *)
Lemma tag_t2 (x : Z) : 0 <= x < 64 -> Z.lor utf8.t2 x = 192 + x.
Proof. intros. exact (lor_shifted_low 3 x 6 ltac:(lia) ltac:(lia)). Qed.

Lemma tag_t3 (x : Z) : 0 <= x < 16 -> Z.lor utf8.t3 x = 224 + x.
Proof. intros. exact (lor_shifted_low 14 x 4 ltac:(lia) ltac:(lia)). Qed.

Lemma tag_t4 (x : Z) : 0 <= x < 8 -> Z.lor utf8.t4 x = 240 + x.
Proof. intros. exact (lor_shifted_low 30 x 3 ltac:(lia) ltac:(lia)). Qed.

Lemma tag_tx (x : Z) : Z.lor utf8.tx (Z.land x utf8.maskx) = 128 + x mod 64.
Proof.
  unfold utf8.maskx. rewrite land_63.
  apply (lor_shifted_low 2 _ 6); [lia|]. apply Z.mod_pos_bound; lia.
Qed.

Ltac bytes_eq :=
  repeat match goal with
  | |- _ :: _ = _ :: _ => f_equal
  | |- byte_of_Z _ = byte_of_Z _ => apply (f_equal byte_of_Z)
  end; try zsolve.

(** The bytes of a valid code point, by width. *)
Lemma encode_cases (r : Z) :
  utf8.ValidRune r = true ->
  (r <= 0x7F /\ utf8.encode r = [byte_of_Z r]) \/
  (0x80 <= r <= 0x7FF /\
   utf8.encode r = [byte_of_Z (192 + r / 64); byte_of_Z (128 + r mod 64)]) \/
  (0x800 <= r <= 0xFFFF /\
   utf8.encode r = [byte_of_Z (224 + r / 4096); byte_of_Z (128 + (r / 64) mod 64);
                    byte_of_Z (128 + r mod 64)]) \/
  (0x10000 <= r /\
   utf8.encode r = [byte_of_Z (240 + r / 262144); byte_of_Z (128 + (r / 4096) mod 64);
                    byte_of_Z (128 + (r / 64) mod 64); byte_of_Z (128 + r mod 64)]).
Proof.
  intros Hv. unfold utf8.ValidRune, utf8.surrogateMin, utf8.surrogateMax,
    utf8.MaxRune in Hv.
  assert (Hr : 0 <= r <= 0x10FFFF /\ (r < 0xD800 \/ 0xDFFF < r))
    by (apply orb_true_iff in Hv; destruct Hv; bools_to_props; lia).
  clear Hv.
  unfold utf8.encode, uint32, utf8.rune1Max, utf8.rune2Max, utf8.rune3Max,
    utf8.surrogateMin, utf8.surrogateMax, utf8.MaxRune.
  rewrite (Z.mod_small r (2 ^ 32)) by lia.
  cbv zeta. split_ifs; bools_to_props; try lia.
  all: rewrite ?Z_of_byte_of_Z, ?Z.shiftr_div_pow2, ?tag_tx by lia.
  all: change (2 ^ 6) with 64; change (2 ^ 12) with 4096;
    change (2 ^ 18) with 262144.
  - left. split; [lia | reflexivity].
  - right; left. split; [lia|].
    rewrite tag_t2 by zsolve. bytes_eq.
  - right; right; left. split; [lia|].
    rewrite tag_t3 by zsolve. bytes_eq.
  - right; right; right. split; [lia|].
    rewrite tag_t4 by zsolve. bytes_eq.
Qed.

(** Decoding what [AppendRune] wrote gives the code point back, whatever
    follows it in the slice. *)
Lemma DecodeRune_encode (r : Z) (rest : list byte) :
  utf8.ValidRune r = true ->
  utf8.DecodeRune (utf8.encode r ++ rest) = (r, length (utf8.encode r)).
Proof.
  intros Hv.
  assert (Hr : 0 <= r <= 0x10FFFF /\ (r < 0xD800 \/ 0xDFFF < r)).
  { unfold utf8.ValidRune, utf8.surrogateMin, utf8.surrogateMax,
      utf8.MaxRune in Hv.
    apply orb_true_iff in Hv; destruct Hv; bools_to_props; lia. }
  destruct (encode_cases r Hv) as [[H ->]|[[H ->]|[[H ->]|[H ->]]]];
    cbn [app length].
  - rewrite DecodeRune_1; rewrite Z_of_byte_of_Z; [f_equal|]; zsolve.
  - rewrite DecodeRune_2; rewrite ?Z_of_byte_of_Z; [f_equal|..]; zsolve.
  - rewrite DecodeRune_3; rewrite ?Z_of_byte_of_Z; [f_equal|..]; zsolve.
  - rewrite DecodeRune_4; rewrite ?Z_of_byte_of_Z; [f_equal|..]; zsolve.
Qed.

Lemma encode_nonempty (r : Z) : (1 <= length (utf8.encode r))%nat.
Proof.
  unfold utf8.encode. cbv zeta. split_ifs; cbn [length]; lia.
Qed.

(** ** [bytes.Map] and the code points of a slice *)

Lemma runes_loop_enough (fuel1 fuel2 : nat) (p : list byte) :
  (length p <= fuel1)%nat -> (length p <= fuel2)%nat ->
  runes_loop fuel1 p = runes_loop fuel2 p.
Proof.
  revert fuel2 p. induction fuel1 as [|fuel1 IH]; intros fuel2 p H1 H2.
  - destruct p; [|cbn in H1; lia]. destruct fuel2; reflexivity.
  - destruct p as [|c0 p]; [destruct fuel2; reflexivity|].
    destruct fuel2 as [|fuel2]; [cbn in H2; lia|].
    cbn [runes_loop].
    pose proof (DecodeRune_width c0 p) as Hw.
    destruct (utf8.DecodeRune (c0 :: p)) as [r wid]. cbn [snd] in Hw.
    f_equal. apply IH; rewrite length_drop; cbn [length] in *; lia.
Qed.

Lemma runes_loop_runes (fuel : nat) (p : list byte) :
  (length p <= fuel)%nat -> runes_loop fuel p = runes p.
Proof. intros H. apply runes_loop_enough; [assumption | lia]. Qed.

(** One step of [runes]: the first code point, then those of the rest. *)
Lemma runes_cons (c0 : byte) (p : list byte) :
  runes (c0 :: p)
  = fst (utf8.DecodeRune (c0 :: p))
    :: runes (drop (snd (utf8.DecodeRune (c0 :: p))) (c0 :: p)).
Proof.
  unfold runes at 1. cbn [length runes_loop].
  pose proof (DecodeRune_width c0 p) as Hw.
  destruct (utf8.DecodeRune (c0 :: p)) as [r wid]. cbn [fst snd] in *.
  f_equal. apply runes_loop_runes. rewrite length_drop. cbn [length]. lia.
Qed.

Lemma runes_valid (p : list byte) :
  Forall (fun r => utf8.ValidRune r = true) (runes p).
Proof.
  remember (length p) as n eqn:Hn. revert p Hn.
  induction n as [n IH] using lt_wf_ind. intros p Hn.
  destruct p as [|c0 p]; [constructor|].
  rewrite runes_cons. constructor; [apply DecodeRune_valid|].
  pose proof (DecodeRune_width c0 p) as Hw.
  eapply IH; [|reflexivity]. rewrite length_drop. lia.
Qed.

Lemma runes_encode (r : Z) (rest : list byte) :
  utf8.ValidRune r = true ->
  runes (utf8.encode r ++ rest) = r :: runes rest.
Proof.
  intros Hv. pose proof (encode_nonempty r) as Hne.
  pose proof (DecodeRune_encode r rest Hv) as Hd.
  destruct (utf8.encode r ++ rest) as [|c0 p] eqn:Heq.
  - apply (f_equal length) in Heq. rewrite length_app in Heq. cbn in Heq. lia.
  - rewrite runes_cons, Hd. cbn [fst snd]. rewrite <- Heq.
    rewrite drop_app_length. reflexivity.
Qed.

(** Decoding the text of valid code points gives them back. *)
Lemma runes_encode_runes (rs : list Z) :
  Forall (fun r => utf8.ValidRune r = true) rs ->
  runes (encode_runes rs) = rs.
Proof.
  induction 1 as [|r rs Hr _ IH]; [reflexivity|].
  unfold encode_runes in *. cbn [map concat].
  rewrite runes_encode by assumption. f_equal. exact IH.
Qed.

(** [bytes.Map] reads the slice as [runes] does and writes, for each code
    point, the encoding of its image unless the image is negative. *)
Lemma Map_loop_runes (mapping : Z -> Z) (fuel : nat) (p b : list byte) :
  (length p <= fuel)%nat ->
  bytes.Map_loop fuel mapping p b
  = b ++ concat (map (fun r => if 0 <=? mapping r then utf8.encode (mapping r)
                               else [])
                     (runes p)).
Proof.
  revert p b. induction fuel as [|fuel IH]; intros p b Hlen.
  - destruct p; [|cbn in Hlen; lia]. cbn. rewrite app_nil_r. reflexivity.
  - destruct p as [|c0 p]; [cbn; rewrite app_nil_r; reflexivity|].
    rewrite runes_cons. cbn [bytes.Map_loop map concat].
    assert (Hfast :
      (if utf8.RuneSelf <=? Z_of_byte c0 then utf8.DecodeRune (c0 :: p)
       else (Z_of_byte c0, 1%nat)) = utf8.DecodeRune (c0 :: p)).
    { unfold utf8.RuneSelf. destruct (Z.leb_spec 0x80 (Z_of_byte c0));
        [reflexivity|]. symmetry. apply DecodeRune_1. lia. }
    rewrite Hfast.
    pose proof (DecodeRune_width c0 p) as Hw.
    destruct (utf8.DecodeRune (c0 :: p)) as [r wid]. cbn [fst snd] in *.
    rewrite IH by (rewrite length_drop; cbn [length] in *; lia).
    unfold utf8.AppendRune.
    destruct (0 <=? mapping r); [rewrite <- app_assoc|]; reflexivity.
Qed.

Lemma Map_runes (mapping : Z -> Z) (p : list byte) :
  bytes.Map mapping p
  = concat (map (fun r => if 0 <=? mapping r then utf8.encode (mapping r)
                          else [])
                (runes p)).
Proof. unfold bytes.Map. rewrite Map_loop_runes by lia. reflexivity. Qed.

(** What [parseResponse] hands to the JSON decoder: the text of the code
    points of the body that are not control characters. *)
Lemma Map_dropControl (p : list byte) :
  bytes.Map dropControl p
  = encode_runes (List.filter (fun r => negb (unicode.IsControl r)) (runes p)).
Proof.
  rewrite Map_runes. pose proof (runes_valid p) as Hv.
  induction Hv as [|r rs Hr _ IH]; [reflexivity|].
  cbn [map concat List.filter]. rewrite IH. unfold dropControl at 1 2.
  destruct (unicode.IsControl r); cbn [negb]; [reflexivity|].
  assert (H0 : 0 <= r).
  { unfold utf8.ValidRune, utf8.surrogateMax in Hr.
    apply orb_true_iff in Hr. destruct Hr; bools_to_props; lia. }
  apply Z.leb_le in H0. rewrite H0. reflexivity.
Qed.

Lemma filter_valid (P : Z -> bool) (rs : list Z) :
  Forall (fun r => utf8.ValidRune r = true) rs ->
  Forall (fun r => utf8.ValidRune r = true) (List.filter P rs).
Proof.
  induction 1 as [|r rs Hr _ IH]; [constructor|].
  cbn [List.filter]. destruct (P r); [constructor|]; assumption.
Qed.

(** The code points that reach the decoder are those of the body without
    the control characters, in order. *)
Lemma runes_Map_dropControl (p : list byte) :
  runes (bytes.Map dropControl p)
  = List.filter (fun r => negb (unicode.IsControl r)) (runes p).
Proof.
  rewrite Map_dropControl. apply runes_encode_runes, filter_valid, runes_valid.
Qed.

(** A line feed and U+0085 (bytes C2 85) are dropped, the two bytes of
    U+00E9 are kept, and a lone byte 85, which is no code point, comes out as
    U+FFFD. *)
Example Map_dropControl_sample :
  map Z_of_byte
    (bytes.Map dropControl
       (map byte_of_Z [0x7B; 0x0A; 0xC2; 0x85; 0xC3; 0xA9; 0x85; 0x7D]))
  = [0x7B; 0xC3; 0xA9; 0xEF; 0xBF; 0xBD; 0x7D].
Proof. vm_compute. reflexivity. Qed.

(** On a well-formed text the bytes of every other character are kept as
    they are. *)
Lemma Map_dropControl_text (rs : list Z) :
  Forall (fun r => utf8.ValidRune r = true) rs ->
  bytes.Map dropControl (encode_runes rs)
  = encode_runes (List.filter (fun r => negb (unicode.IsControl r)) rs).
Proof.
  intros Hv. rewrite Map_dropControl, runes_encode_runes by assumption.
  reflexivity.
Qed.

(** ** The configuration calls *)

Ltac run := unfold bind, ret, load, store, alloc, record_call, calls_so_far, panic.

Lemma OnSandboxEnv_run (c : loc) (v : client) (w : World) :
  heap w !! c = Some v ->
  OnSandboxEnv c w
  = Some (c, {| heap := <[c := {| verificationURL := sandboxReceiptVerificationURL;
                                  autofixEnvironment := autofixEnvironment v |}]>
                        (heap w);
                log := log w |}).
Proof.
  intros H. unfold OnSandboxEnv. run. rewrite H. cbn [heap]. rewrite H. reflexivity.
Qed.

Lemma OnProductionEnv_run (c : loc) (v : client) (w : World) :
  heap w !! c = Some v ->
  OnProductionEnv c w
  = Some (c, {| heap := <[c := {| verificationURL := productionReceiptVerificationURL;
                                  autofixEnvironment := autofixEnvironment v |}]>
                        (heap w);
                log := log w |}).
Proof.
  intros H. unfold OnProductionEnv. run. rewrite H. cbn [heap]. rewrite H. reflexivity.
Qed.

Lemma WithoutEnvAutoFix_run (c : loc) (v : client) (w : World) :
  heap w !! c = Some v ->
  WithoutEnvAutoFix c w
  = Some (c, {| heap := <[c := {| verificationURL := verificationURL v;
                                  autofixEnvironment := false |}]>
                        (heap w);
                log := log w |}).
Proof.
  intros H. unfold WithoutEnvAutoFix. run. rewrite H. cbn [heap]. rewrite H. reflexivity.
Qed.

Lemma isSandbox_run (c : loc) (v : client) (w : World) :
  heap w !! c = Some v ->
  isSandbox c w
  = Some (String.eqb (verificationURL v) sandboxReceiptVerificationURL, w).
Proof. intros H. unfold isSandbox. run. rewrite H. reflexivity. Qed.

Lemma isProduction_run (c : loc) (v : client) (w : World) :
  heap w !! c = Some v ->
  isProduction c w
  = Some (String.eqb (verificationURL v) productionReceiptVerificationURL, w).
Proof. intros H. unfold isProduction. run. rewrite H. reflexivity. Qed.

(** A chain of configuration calls hands back the client it started from
    and leaves it on one of the two endpoints. *)
Lemma chain_run (ms : list mutator) (c : loc) (v : client) (w : World) :
  heap w !! c = Some v -> known_endpoint v ->
  exists w' v',
    chain ms c w = Some (c, w') /\ heap w' !! c = Some v' /\ known_endpoint v'.
Proof.
  revert v w. induction ms as [|m ms IH]; intros v w Hc Hv.
  - exists w, v. repeat split; assumption.
  - cbn [chain]. unfold bind at 1.
    destruct m; cbn [call_mutator].
    + rewrite (OnSandboxEnv_run c v w Hc).
      eapply IH; [cbn; apply lookup_insert_eq | left; reflexivity].
    + rewrite (OnProductionEnv_run c v w Hc).
      eapply IH; [cbn; apply lookup_insert_eq | right; reflexivity].
    + rewrite (WithoutEnvAutoFix_run c v w Hc).
      eapply IH; [cbn; apply lookup_insert_eq | exact Hv].
Qed.

(** ** The transport and one attempt *)

Section Attempt.

Context `{E : Externals}.

Lemma unread_NewReader (b : list byte) : unread (NewReader b) = b.
Proof. reflexivity. Qed.

Lemma elems_Some (b : list byte) : elems (Some b) = b.
Proof. reflexivity. Qed.

(** [post] always returns, with one more call on record and nothing else
    changed; it yields a body exactly when it yields no error. *)
Lemma post_run (c : loc) (ctx : context_Context) (buf : Reader) (url : string) (w : World) :
  exists (body : slice) (err : option error),
    post c ctx buf url w = Some ((body, err), logged url (unread buf) w) /\
    ((exists b, body = Some b /\ err = None) \/
     (exists e, body = None /\ err = Some e)).
Proof.
  unfold post. run.
  destruct (http_NewRequest "POST" url) as [e|]; [eauto 8|].
  destruct (network _ _ _) as [e|code line [b|e]]; [eauto 8|..];
    destruct (negb (code =? StatusOK)); eauto 8.
Qed.

Lemma queryStore_post (c : loc) (ctx : context_Context) (buf : Reader) (url : string)
    (w w1 : World) (body : slice) (err : option error) :
  post c ctx buf url w = Some ((body, err), w1) ->
  queryStore c ctx buf url w = Some (attempt_of body err, w1).
Proof.
  intros H. unfold queryStore, bind. rewrite H. unfold attempt_of.
  destruct err; [reflexivity|]. destruct (parseResponse body). reflexivity.
Qed.

(** [queryStore] always returns, having made exactly one transport call;
    with no error it carries a decoded response. *)
Lemma queryStore_run (c : loc) (ctx : context_Context) (buf : Reader) (url : string)
    (w : World) :
  exists body resp err,
    queryStore c ctx buf url w
    = Some ((body, resp, err), logged url (unread buf) w) /\
    (err = None -> exists r, resp = Some r).
Proof.
  destruct (post_run c ctx buf url w) as (body & err & Hp & _).
  rewrite (queryStore_post _ _ _ _ _ _ _ _ Hp). unfold attempt_of.
  destruct err as [e|].
  - exists body, None, (Some e). split; [reflexivity | discriminate].
  - unfold parseResponse. destruct (json_Unmarshal _) as [r|e]; cbn.
    + exists body, (Some r), None. eauto.
    + eexists body, None, _. split; [reflexivity | discriminate].
Qed.

Lemma queryStore_world (c : loc) (ctx : context_Context) (buf : Reader) (url : string)
    (w w1 : World) r :
  queryStore c ctx buf url w = Some (r, w1) ->
  w1 = logged url (unread buf) w.
Proof.
  intros H. destruct (queryStore_run c ctx buf url w) as (b & rs & e & Hq & _).
  congruence.
Qed.

Lemma checkResendNeeded_run (c : loc) (v : client) (r : ReceiptResponse) (w : World) :
  heap w !! c = Some v ->
  checkResendNeeded c (Some r) w = Some (resend_decision v (Status r), w).
Proof.
  intros H. unfold checkResendNeeded, resend_decision.
  destruct (Status r =? _).
  - unfold bind. rewrite (isProduction_run c v w H).
    destruct (String.eqb _ _); reflexivity.
  - destruct (Status r =? _); [|reflexivity].
    unfold bind. rewrite (isSandbox_run c v w H).
    destruct (String.eqb _ _); reflexivity.
Qed.

(** [Verify] after a first attempt that went through. *)
Lemma Verify_after_first (c : loc) (ctx : context_Context) (req : ReceiptRequest)
    (reqJSON : list byte) (v : client) (w w1 : World)
    (body : slice) (resp : option ReceiptResponse) (err : option error) :
  json_Marshal req = Ok reqJSON ->
  heap w !! c = Some v ->
  queryStore c ctx (NewReader reqJSON) (verificationURL v) w
  = Some ((body, resp, err), w1) ->
  Verify c ctx req w
  = match err, resp with
    | Some _, _ => Some ((body, resp, err), w1)
    | None, None => if autofixEnvironment v then None
                    else Some ((body, resp, err), w1)
    | None, Some r =>
      if autofixEnvironment v && fst (resend_decision v (Status r))
      then queryStore c ctx (NewReader reqJSON)
             (snd (resend_decision v (Status r))) w1
      else Some ((body, resp, err), w1)
    end.
Proof.
  intros Hm Hc Hq. pose proof (queryStore_world _ _ _ _ _ _ _ Hq) as Hw.
  assert (Hc1 : heap w1 !! c = Some v) by (subst w1; exact Hc).
  unfold Verify. rewrite Hm. unfold bind at 1, load at 1. rewrite Hc.
  unfold bind at 1. rewrite Hq.
  destruct err as [e|]; [reflexivity|].
  unfold bind at 1, load at 1. rewrite Hc1.
  destruct (autofixEnvironment v); [|destruct resp; reflexivity].
  destruct resp as [r|]; [|reflexivity].
  unfold bind at 1. rewrite (checkResendNeeded_run c v r w1 Hc1).
  destruct (resend_decision v (Status r)) as [[|] newUrl]; reflexivity.
Qed.

(** [Verify] on a client that exists always returns; it leaves the store
    as it was and adds at most two transport calls, the first of them to
    the configured URL with the serialized request. *)
Lemma Verify_run (c : loc) (ctx : context_Context) (req : ReceiptRequest)
    (v : client) (w : World) :
  heap w !! c = Some v ->
  exists result w' calls,
    Verify c ctx req w = Some (result, w') /\
    heap w' = heap w /\
    log w' = log w ++ calls /\
    (length calls <= 2)%nat /\
    (forall reqJSON, json_Marshal req = Ok reqJSON ->
       exists later,
         calls = {| call_url := verificationURL v; call_body := reqJSON |}
                 :: later).
Proof.
  intros Hc. destruct (json_Marshal req) as [reqJSON|e0] eqn:Hm.
  2:{ exists (None, None, errors.Wrap (Some e0) "could not marshal receipt request"),
        w, [].
      unfold Verify. rewrite Hm. rewrite app_nil_r.
      repeat split; [cbn; lia | discriminate]. }
  destruct (queryStore_run c ctx (NewReader reqJSON) (verificationURL v) w)
    as (b1 & r1 & e1 & Hq & Hr1).
  rewrite unread_NewReader in Hq.
  rewrite (Verify_after_first c ctx req reqJSON v w _ _ _ _ Hm Hc Hq).
  set (c1 := {| call_url := verificationURL v; call_body := reqJSON |}).
  assert (Hone : exists result w' calls,
    Some ((b1, r1, e1), logged (verificationURL v) reqJSON w) = Some (result, w') /\
    heap w' = heap w /\ log w' = log w ++ calls /\ (length calls <= 2)%nat /\
    (forall j, Ok reqJSON = Ok j -> exists later,
       calls = {| call_url := verificationURL v; call_body := j |} :: later)).
  { exists (b1, r1, e1), (logged (verificationURL v) reqJSON w), [c1].
    repeat split; [cbn; lia|]. intros j [= <-]. exists []. reflexivity. }
  destruct e1 as [e1|]; [exact Hone|].
  destruct (Hr1 eq_refl) as [r ->].
  destruct (autofixEnvironment v && fst (resend_decision v (Status r)));
    [|exact Hone].
  destruct (queryStore_run c ctx (NewReader reqJSON)
              (snd (resend_decision v (Status r)))
              (logged (verificationURL v) reqJSON w))
    as (b2 & r2 & e2 & Hq2 & _).
  rewrite unread_NewReader in Hq2. rewrite Hq2.
  eexists _, _, [c1; _]. split; [reflexivity|].
  repeat split.
  - cbn [logged log]. rewrite <- app_assoc. reflexivity.
  - cbn; lia.
  - intros j [= <-]. eexists. reflexivity.
Qed.

End Attempt.

(** ** Properties of the protocol *)

Lemma endpoints_differ :
  sandboxReceiptVerificationURL <> productionReceiptVerificationURL.
Proof. discriminate. Qed.

Lemma resend_decision_cases `{E : Externals} (v : client) (status : Z) :
  (status = ReceiptResponseStatusSandboxReceiptSentToProduction /\
   verificationURL v = productionReceiptVerificationURL /\
   resend_decision v status = (true, sandboxReceiptVerificationURL)) \/
  (status = ReceiptResponseStatusProductionReceiptSentToSandbox /\
   verificationURL v = sandboxReceiptVerificationURL /\
   resend_decision v status = (true, productionReceiptVerificationURL)) \/
  (~ (status = ReceiptResponseStatusSandboxReceiptSentToProduction /\
      verificationURL v = productionReceiptVerificationURL) /\
   ~ (status = ReceiptResponseStatusProductionReceiptSentToSandbox /\
      verificationURL v = sandboxReceiptVerificationURL) /\
   resend_decision v status = (false, EmptyString)).
Proof.
  unfold resend_decision,
    ReceiptResponseStatusSandboxReceiptSentToProduction,
    ReceiptResponseStatusProductionReceiptSentToSandbox.
  destruct (Z.eqb_spec status 21007) as [H7|H7].
  - destruct (String.eqb_spec (verificationURL v) productionReceiptVerificationURL)
      as [Hp|Hp].
    + left. auto.
    + right; right. repeat split; [tauto | lia].
  - destruct (Z.eqb_spec status 21008) as [H8|H8].
    + destruct (String.eqb_spec (verificationURL v) sandboxReceiptVerificationURL)
        as [Hs|Hs].
      * right; left. auto.
      * right; right. repeat split; tauto.
    + right; right. repeat split; tauto.
Qed.

Section Claims.

Context `{E : Externals}.

(** C1. With auto-fix enabled and a first attempt that was sent and
    decoded, [Verify] resends exactly when the status is 21007 on a
    client set to the production URL (the resend goes to the sandbox URL)
    or 21008 on a client set to the sandbox URL (the resend goes to the
    production URL).  The resend carries the same serialized request, and
    its body, response and error are what [Verify] returns.  Otherwise
    one call is made and the first attempt is returned; in particular a
    sandbox client receiving 21007, or a production client receiving
    21008, does not resend. *)
Theorem Verify_resend_iff (c : loc) (ctx : context_Context) (req : ReceiptRequest)
    (reqJSON : list byte) (v : client) (w w1 : World)
    (body1 : slice) (resp1 : ReceiptResponse) :
  json_Marshal req = Ok reqJSON ->
  heap w !! c = Some v ->
  autofixEnvironment v = true ->
  queryStore c ctx (NewReader reqJSON) (verificationURL v) w
  = Some ((body1, Some resp1, None), w1) ->
  let first_call :=
    {| call_url := verificationURL v; call_body := reqJSON |} in
  let resend_to (url : string) :=
    {| call_url := url; call_body := reqJSON |} in
  let to_sandbox :=
    Status resp1 = ReceiptResponseStatusSandboxReceiptSentToProduction /\
    verificationURL v = productionReceiptVerificationURL in
  let to_production :=
    Status resp1 = ReceiptResponseStatusProductionReceiptSentToSandbox /\
    verificationURL v = sandboxReceiptVerificationURL in
  exists result w',
    Verify c ctx req w = Some (result, w') /\
    ((to_sandbox /\
      queryStore c ctx (NewReader reqJSON) sandboxReceiptVerificationURL w1
      = Some (result, w') /\
      log w' = log w ++ [first_call; resend_to sandboxReceiptVerificationURL])
     \/
     (to_production /\
      queryStore c ctx (NewReader reqJSON) productionReceiptVerificationURL w1
      = Some (result, w') /\
      log w' = log w ++ [first_call; resend_to productionReceiptVerificationURL])
     \/
     (~ to_sandbox /\ ~ to_production /\
      result = (body1, Some resp1, None) /\ w' = w1 /\
      log w' = log w ++ [first_call])) /\
    (length (log w') = (length (log w) + 2)%nat <-> to_sandbox \/ to_production) /\
    (Status resp1 = ReceiptResponseStatusSandboxReceiptSentToProduction ->
     verificationURL v = sandboxReceiptVerificationURL ->
     log w' = log w ++ [first_call]) /\
    (Status resp1 = ReceiptResponseStatusProductionReceiptSentToSandbox ->
     verificationURL v = productionReceiptVerificationURL ->
     log w' = log w ++ [first_call]).
Proof.
  intros Hm Hc Hfix Hq first_call resend_to to_sandbox to_production.
  pose proof (queryStore_world _ _ _ _ _ _ _ Hq) as Hw1.
  rewrite unread_NewReader in Hw1.
  rewrite (Verify_after_first c ctx req reqJSON v w w1 _ _ _ Hm Hc Hq), Hfix.
  cbn [andb].
  assert (Hlog1 : log w1 = log w ++ [first_call]) by (subst w1; reflexivity).
  destruct (resend_decision_cases v (Status resp1))
    as [(Hs & Hu & ->)|[(Hs & Hu & ->)|(Hn1 & Hn2 & ->)]]; cbn [fst snd].
  - destruct (queryStore_run c ctx (NewReader reqJSON)
                sandboxReceiptVerificationURL w1) as (b & r & e & Hq2 & _).
    rewrite unread_NewReader in Hq2.
    assert (Hlog2 : log (logged sandboxReceiptVerificationURL reqJSON w1)
                    = log w ++ [first_call; resend_to sandboxReceiptVerificationURL]).
    { cbn [logged log]. rewrite Hlog1, <- app_assoc. reflexivity. }
    eexists _, _. split; [exact Hq2|]. split; [|split; [|split]].
    + left. repeat split; assumption.
    + rewrite Hlog2, length_app. cbn [length].
      split; [intros _; left; split; assumption | lia].
    + intros _ Hu'. rewrite Hu in Hu'. symmetry in Hu'.
      destruct (endpoints_differ Hu').
    + intros Hs'. rewrite Hs in Hs'. discriminate.
  - destruct (queryStore_run c ctx (NewReader reqJSON)
                productionReceiptVerificationURL w1) as (b & r & e & Hq2 & _).
    rewrite unread_NewReader in Hq2.
    assert (Hlog2 : log (logged productionReceiptVerificationURL reqJSON w1)
                    = log w ++ [first_call; resend_to productionReceiptVerificationURL]).
    { cbn [logged log]. rewrite Hlog1, <- app_assoc. reflexivity. }
    eexists _, _. split; [exact Hq2|]. split; [|split; [|split]].
    + right; left. repeat split; assumption.
    + rewrite Hlog2, length_app. cbn [length].
      split; [intros _; right; split; assumption | lia].
    + intros Hs'. rewrite Hs in Hs'. discriminate.
    + intros _ Hu'. rewrite Hu in Hu'. destruct (endpoints_differ Hu').
  - eexists _, _. split; [reflexivity|]. split; [|split; [|split]].
    + right; right. repeat split; assumption.
    + rewrite Hlog1, length_app. cbn [length]. split; [lia | tauto].
    + intros _ _. exact Hlog1.
    + intros _ _. exact Hlog1.
Qed.

(** C2. A call to [Verify] makes at most two transport calls, whatever
    the network answers, the second answer included: there is at most
    one resend. *)
Theorem Verify_at_most_two_calls (c : loc) (ctx : context_Context)
    (req : ReceiptRequest) (w : World) :
  is_Some (heap w !! c) ->
  exists result w' calls,
    Verify c ctx req w = Some (result, w') /\
    log w' = log w ++ calls /\
    (length calls <= 2)%nat.
Proof.
  intros [v Hc].
  destruct (Verify_run c ctx req v w Hc) as (r & w' & calls & H & _ & Hl & Hn & _).
  exists r, w', calls. auto.
Qed.

(** C3. [Verify] leaves the stored configuration as it found it, resend
    or not: the client still has the URL and the auto-fix flag it had, and
    a later [Verify] sends its first call to that same URL. *)
Theorem Verify_keeps_configuration (c : loc) (ctx : context_Context)
    (req : ReceiptRequest) (v : client) (w : World) :
  heap w !! c = Some v ->
  exists result w',
    Verify c ctx req w = Some (result, w') /\
    heap w' = heap w /\
    heap w' !! c = Some v /\
    forall (ctx2 : context_Context) (req2 : ReceiptRequest) (reqJSON2 : list byte),
      json_Marshal req2 = Ok reqJSON2 ->
      exists result2 w2 later,
        Verify c ctx2 req2 w' = Some (result2, w2) /\
        heap w2 = heap w /\
        log w2 = log w' ++ {| call_url := verificationURL v;
                              call_body := reqJSON2 |} :: later.
Proof.
  intros Hc.
  destruct (Verify_run c ctx req v w Hc) as (r & w' & calls & H & Hh & _).
  assert (Hc' : heap w' !! c = Some v) by (rewrite Hh; exact Hc).
  exists r, w'. repeat split; try assumption.
  intros ctx2 req2 reqJSON2 Hm2.
  destruct (Verify_run c ctx2 req2 v w' Hc')
    as (r2 & w2 & calls2 & H2 & Hh2 & Hl2 & _ & Hfirst).
  destruct (Hfirst reqJSON2 Hm2) as [later ->].
  exists r2, w2, later. repeat split; [assumption | congruence | assumption].
Qed.

(** C4, as amended. With auto-fix disabled and a request that serializes,
    [Verify] makes exactly one transport call, to the configured URL, and
    returns the body, response and error of that attempt as they are,
    whatever the status and the endpoint. *)
Theorem Verify_without_autofix (c : loc) (ctx : context_Context)
    (req : ReceiptRequest) (reqJSON : list byte) (v : client) (w : World) :
  heap w !! c = Some v ->
  autofixEnvironment v = false ->
  json_Marshal req = Ok reqJSON ->
  exists result w',
    queryStore c ctx (NewReader reqJSON) (verificationURL v) w
    = Some (result, w') /\
    Verify c ctx req w = Some (result, w') /\
    log w' = log w ++ [{| call_url := verificationURL v;
                          call_body := reqJSON |}].
Proof.
  intros Hc Hfix Hm.
  destruct (queryStore_run c ctx (NewReader reqJSON) (verificationURL v) w)
    as (b1 & r1 & e1 & Hq & _).
  rewrite unread_NewReader in Hq.
  eexists _, _. split; [exact Hq|]. split; [|reflexivity].
  rewrite (Verify_after_first c ctx req reqJSON v w _ _ _ _ Hm Hc Hq), Hfix.
  destruct e1, r1; reflexivity.
Qed.

(** C5. When the first attempt fails, in the transport or in decoding,
    [Verify] returns that attempt's outcome with its error at once: one
    transport call was made and no resend, auto-fix enabled or not. *)
Theorem Verify_first_failure (c : loc) (ctx : context_Context)
    (req : ReceiptRequest) (reqJSON : list byte) (v : client) (w w1 : World)
    (body : slice) (perr : option error) (e : error) :
  json_Marshal req = Ok reqJSON ->
  heap w !! c = Some v ->
  post c ctx (NewReader reqJSON) (verificationURL v) w
  = Some ((body, perr), w1) ->
  perr = Some e \/ (perr = None /\ parseResponse body = (None, Some e)) ->
  Verify c ctx req w = Some ((body, None, Some e), w1) /\
  log w1 = log w ++ [{| call_url := verificationURL v;
                        call_body := reqJSON |}].
Proof.
  intros Hm Hc Hp Hfail.
  pose proof (queryStore_post _ _ _ _ _ _ _ _ Hp) as Hq.
  assert (Ha : attempt_of body perr = (body, None, Some e)).
  { unfold attempt_of. destruct Hfail as [->|[-> ->]]; reflexivity. }
  rewrite Ha in Hq.
  rewrite (Verify_after_first c ctx req reqJSON v w _ _ _ _ Hm Hc Hq).
  split; [reflexivity|].
  rewrite (queryStore_world _ _ _ _ _ _ _ Hq). reflexivity.
Qed.

(** C6. When the request does not serialize, [Verify] returns the
    marshalling error wrapped with its description, a nil body and a nil
    response, and makes no transport call: the state is untouched. *)
Theorem Verify_marshal_failure (c : loc) (ctx : context_Context)
    (req : ReceiptRequest) (e : error) (w : World) :
  json_Marshal req = Fail e ->
  Verify c ctx req w
  = Some ((None, None, Some (Wrapped e "could not marshal receipt request")), w).
Proof. intros Hm. unfold Verify. rewrite Hm. reflexivity. Qed.

(** C7. [parseResponse] decodes the body with every control code point
    taken out and everything else left in place: the code points handed
    to the JSON decoder are those of the body that are not control
    characters, in order, and no control character is among them.  So a
    body that decodes once stripped gives its response and no error, and
    a well-formed text with control characters put in decodes as the text
    without them does. *)
Theorem parseResponse_strips_control (body : list byte) :
  let stripped := bytes.Map dropControl body in
  runes stripped
  = List.filter (fun r => negb (unicode.IsControl r)) (runes body) /\
  Forall (fun r => unicode.IsControl r = false) (runes stripped) /\
  parseResponse (Some body)
  = match json_Unmarshal stripped with
    | Ok resp => (Some resp, None)
    | Fail err =>
      (None, Some (Wrapped err "could not unmarshal app store response"))
    end /\
  (forall resp, json_Unmarshal stripped = Ok resp ->
     parseResponse (Some body) = (Some resp, None)) /\
  (forall text : list Z,
     Forall (fun r => utf8.ValidRune r = true) text ->
     body = encode_runes text ->
     let kept := List.filter (fun r => negb (unicode.IsControl r)) text in
     stripped = encode_runes kept /\
     forall resp : ReceiptResponse,
       json_Unmarshal (encode_runes kept) = Ok resp ->
       parseResponse (Some body) = (Some resp, None)).
Proof.
  intros stripped. subst stripped.
  assert (Hparse : parseResponse (Some body)
    = match json_Unmarshal (bytes.Map dropControl body) with
      | Ok resp => (Some resp, None)
      | Fail err =>
        (None, Some (Wrapped err "could not unmarshal app store response"))
      end).
  { unfold parseResponse. rewrite elems_Some.
    destruct (json_Unmarshal _); reflexivity. }
  split; [apply runes_Map_dropControl|]. split; [|split; [exact Hparse|split]].
  - rewrite runes_Map_dropControl. apply Forall_forall.
    intros r Hin. apply list_elem_of_In, List.filter_In in Hin.
    destruct Hin as [_ Hr].
    apply negb_true_iff in Hr. exact Hr.
  - intros resp Hd. rewrite Hparse, Hd. reflexivity.
  - intros text Hv -> kept. subst kept.
    split; [apply Map_dropControl_text; assumption|].
    intros resp Hd. rewrite Hparse.
    rewrite Map_dropControl_text by assumption. rewrite Hd. reflexivity.
Qed.

(** C8. When a transport call succeeds and its body does not decode even
    after stripping, [Verify] returns the decode error with the raw body
    as it was received and a nil response; this holds for the first call
    and for the resend. *)
Theorem Verify_decode_failure (c : loc) (ctx : context_Context)
    (req : ReceiptRequest) (reqJSON : list byte) (v : client) (w w1 : World)
    (raw1 : list byte) :
  json_Marshal req = Ok reqJSON ->
  heap w !! c = Some v ->
  post c ctx (NewReader reqJSON) (verificationURL v) w
  = Some ((Some raw1, None), w1) ->
  (forall e,
     json_Unmarshal (bytes.Map dropControl raw1) = Fail e ->
     Verify c ctx req w
     = Some ((Some raw1, None,
              Some (Wrapped e "could not unmarshal app store response")), w1))
  /\
  (forall resp1 url2 raw2 w2 e,
     json_Unmarshal (bytes.Map dropControl raw1) = Ok resp1 ->
     autofixEnvironment v = true ->
     (Status resp1 = ReceiptResponseStatusSandboxReceiptSentToProduction /\
      verificationURL v = productionReceiptVerificationURL /\
      url2 = sandboxReceiptVerificationURL
      \/
      Status resp1 = ReceiptResponseStatusProductionReceiptSentToSandbox /\
      verificationURL v = sandboxReceiptVerificationURL /\
      url2 = productionReceiptVerificationURL) ->
     post c ctx (NewReader reqJSON) url2 w1 = Some ((Some raw2, None), w2) ->
     json_Unmarshal (bytes.Map dropControl raw2) = Fail e ->
     Verify c ctx req w
     = Some ((Some raw2, None,
              Some (Wrapped e "could not unmarshal app store response")), w2)).
Proof.
  intros Hm Hc Hp.
  pose proof (queryStore_post _ _ _ _ _ _ _ _ Hp) as Hq.
  unfold attempt_of, parseResponse in Hq. rewrite elems_Some in Hq.
  split.
  - intros e Hd. rewrite Hd in Hq. cbn in Hq.
    rewrite (Verify_after_first c ctx req reqJSON v w _ _ _ _ Hm Hc Hq).
    reflexivity.
  - intros resp1 url2 raw2 w2 e Hd1 Hfix Hcond Hp2 Hd2.
    rewrite Hd1 in Hq.
    rewrite (Verify_after_first c ctx req reqJSON v w _ _ _ _ Hm Hc Hq), Hfix.
    cbn [andb].
    pose proof (queryStore_post _ _ _ _ _ _ _ _ Hp2) as Hq2.
    unfold attempt_of, parseResponse in Hq2. rewrite elems_Some in Hq2.
    rewrite Hd2 in Hq2. cbn in Hq2.
    destruct (resend_decision_cases v (Status resp1))
      as [(Hs & Hu & ->)|[(Hs & Hu & ->)|(Hn1 & Hn2 & ->)]]; cbn [fst snd].
    + destruct Hcond as [(_ & _ & ->)|(Hs' & _ & _)]; [exact Hq2|].
      rewrite Hs in Hs'. discriminate.
    + destruct Hcond as [(Hs' & _ & _)|(_ & _ & ->)]; [|exact Hq2].
      rewrite Hs in Hs'. discriminate.
    + destruct Hcond as [(? & ? & _)|(? & ? & _)]; tauto.
Qed.

End Claims.

(** ** Construction and configuration *)

Lemma NewVerificationClient_fresh (w : World) :
  exists c w',
    NewVerificationClient w = Some (c, w') /\
    heap w' !! c = Some {| verificationURL := productionReceiptVerificationURL;
                           autofixEnvironment := true |}.
Proof.
  eexists _, _. split; [reflexivity|]. cbn [heap]. apply lookup_insert_eq.
Qed.

(** C9. [NewVerificationClient] returns a new client set to the production
    URL with auto-fix enabled. *)
Theorem NewVerificationClient_defaults (w : World) :
  exists c w',
    NewVerificationClient w = Some (c, w') /\
    heap w !! c = None /\
    heap w' !! c = Some {| verificationURL := productionReceiptVerificationURL;
                           autofixEnvironment := true |} /\
    (forall c', c' <> c -> heap w' !! c' = heap w !! c') /\
    log w' = log w.
Proof.
  eexists _, _. split; [reflexivity|]. cbn [heap log].
  repeat split.
  - apply not_elem_of_dom, is_fresh.
  - apply lookup_insert_eq.
  - intros c' Hne. apply lookup_insert_ne. congruence.
Qed.

(** C10. A client made by [NewVerificationClient] and configured by any
    chain of [OnSandboxEnv], [OnProductionEnv] and [WithoutEnvAutoFix] has
    one of the two constant URLs, so exactly one of [isSandbox] and
    [isProduction] holds; each of the three calls returns the client it was
    called on and writes its own field only. *)
Theorem configuration_invariant (w : World) (ms : list mutator) :
  exists c w1 w2 v,
    NewVerificationClient w = Some (c, w1) /\
    chain ms c w1 = Some (c, w2) /\
    heap w2 !! c = Some v /\
    (verificationURL v = sandboxReceiptVerificationURL \/
     verificationURL v = productionReceiptVerificationURL) /\
    (exists sb, isSandbox c w2 = Some (sb, w2) /\
                isProduction c w2 = Some (negb sb, w2)) /\
    OnSandboxEnv c w2
    = Some (c, {| heap := <[c := {| verificationURL := sandboxReceiptVerificationURL;
                                    autofixEnvironment := autofixEnvironment v |}]>
                          (heap w2);
                  log := log w2 |}) /\
    OnProductionEnv c w2
    = Some (c, {| heap := <[c := {| verificationURL := productionReceiptVerificationURL;
                                    autofixEnvironment := autofixEnvironment v |}]>
                          (heap w2);
                  log := log w2 |}) /\
    WithoutEnvAutoFix c w2
    = Some (c, {| heap := <[c := {| verificationURL := verificationURL v;
                                    autofixEnvironment := false |}]>
                          (heap w2);
                  log := log w2 |}).
Proof.
  destruct (NewVerificationClient_fresh w) as (c & w1 & Hnew & Hc1).
  destruct (chain_run ms c _ w1 Hc1 (or_intror eq_refl)) as (w2 & v & Hch & Hc2 & Hv).
  exists c, w1, w2, v.
  split; [exact Hnew|]. split; [exact Hch|]. split; [exact Hc2|].
  split; [exact Hv|]. split; [|split; [|split]].
  - exists (String.eqb (verificationURL v) sandboxReceiptVerificationURL).
    rewrite (isSandbox_run c v w2 Hc2), (isProduction_run c v w2 Hc2).
    split; [reflexivity|]. destruct Hv as [-> | ->]; reflexivity.
  - apply OnSandboxEnv_run, Hc2.
  - apply OnProductionEnv_run, Hc2.
  - apply WithoutEnvAutoFix_run, Hc2.
Qed.

(** ** The protocol at work *)

Module Runs.

Import Demo.

(** A production client whose receipt turns out to be a sandbox one: the
    production URL answers 21007, the sandbox URL answers status 0. *)
Lemma Verify_resend_iff_witness :
  exists result w',
    Verify (E := externals (answer seven) (answer zero))
      1%positive tt (Some receipt) (world production_client)
    = Some (result, w') /\
    length (log w') = 2%nat.
Proof.
  destruct (Verify_resend_iff (E := externals (answer seven) (answer zero))
              1%positive tt (Some receipt) receipt production_client
              (world production_client)
              (logged productionReceiptVerificationURL receipt
                 (world production_client))
              (Some seven) 21007)
    as (result & w' & HV & _ & Hiff & _);
    [reflexivity | reflexivity | reflexivity | vm_compute; reflexivity |].
  exists result, w'. split; [exact HV|].
  apply Hiff. left. split; reflexivity.
Defined.

(** Both URLs keep answering with a mismatch status: still two calls. *)
Lemma Verify_at_most_two_calls_witness :
  exists result w' calls,
    Verify (E := externals (answer seven) (answer eight))
      1%positive tt (Some receipt) (world production_client)
    = Some (result, w') /\
    log w' = log (world production_client) ++ calls /\
    (length calls <= 2)%nat.
Proof.
  apply (Verify_at_most_two_calls (E := externals (answer seven) (answer eight))).
  vm_compute. eexists. reflexivity.
Defined.

(** Two calls in a row on the same client, the mismatch recurring: each
    starts at the production URL and each resends. *)
Lemma Verify_keeps_configuration_witness :
  exists result w' result2 w2,
    Verify (E := externals (answer seven) (answer eight))
      1%positive tt (Some receipt) (world production_client)
    = Some (result, w') /\
    heap w' !! 1%positive = Some production_client /\
    Verify (E := externals (answer seven) (answer eight))
      1%positive tt (Some receipt) w'
    = Some (result2, w2) /\
    log w2 = [sent productionReceiptVerificationURL;
              sent sandboxReceiptVerificationURL;
              sent productionReceiptVerificationURL;
              sent sandboxReceiptVerificationURL].
Proof.
  destruct (Verify_keeps_configuration
              (E := externals (answer seven) (answer eight))
              1%positive tt (Some receipt) production_client
              (world production_client))
    as (result & w' & HV & _ & Hc & _); [reflexivity|].
  exists result, w'.
  assert (Hw' : w' = logged sandboxReceiptVerificationURL receipt
                       (logged productionReceiptVerificationURL receipt
                          (world production_client))).
  { vm_compute in HV. injection HV as _ <-. reflexivity. }
  eexists _, _. split; [exact HV|]. split; [exact Hc|].
  subst w'. split; vm_compute; reflexivity.
Defined.

(** Auto-fix disabled: the 21007 answer of the production URL comes back
    as it is, after one call. *)
Lemma Verify_without_autofix_witness :
  exists result w',
    queryStore (E := externals (answer seven) (answer zero))
      1%positive tt (NewReader receipt) productionReceiptVerificationURL
      (world disabled_client)
    = Some (result, w') /\
    Verify (E := externals (answer seven) (answer zero))
      1%positive tt (Some receipt) (world disabled_client)
    = Some (result, w') /\
    log w' = log (world disabled_client)
             ++ [sent productionReceiptVerificationURL].
Proof.
  apply (Verify_without_autofix (E := externals (answer seven) (answer zero))
           1%positive tt (Some receipt) receipt disabled_client
           (world disabled_client)); reflexivity.
Defined.

(** Auto-fix disabled and a request that does not serialize: [Verify]
    returns the marshalling error and no transport call is made, so "exactly
    one transport call" does not hold of every call on such a client. *)
Lemma Verify_without_autofix_counterexample :
  autofixEnvironment disabled_client = false /\
  heap (world disabled_client) !! 1%positive = Some disabled_client /\
  Verify (E := externals (answer seven) (answer zero))
    1%positive tt None (world disabled_client)
  = Some ((None, None,
           Some (Wrapped (LibError "json: unsupported type")
                   "could not marshal receipt request")),
          world disabled_client) /\
  ~ (exists result w' call,
       Verify (E := externals (answer seven) (answer zero))
         1%positive tt None (world disabled_client)
       = Some (result, w') /\
       log w' = log (world disabled_client) ++ [call]).
Proof.
  split; [reflexivity|]. split; [reflexivity|]. split; [reflexivity|].
  intros (result & w' & call & HV & Hlog).
  change (Verify (E := externals (answer seven) (answer zero))
            1%positive tt None (world disabled_client))
    with (Some ((None, None,
                 Some (Wrapped (LibError "json: unsupported type")
                         "could not marshal receipt request")),
                world disabled_client)
          : option ((slice * option Z * option error) * World)) in HV.
  injection HV as _ <-. discriminate Hlog.
Qed.

(** The connection is reset: the wrapped connection error is returned
    after the one call. *)
Lemma Verify_first_failure_witness :
  Verify (E := externals reset (answer zero))
    1%positive tt (Some receipt) (world production_client)
  = Some ((None, None,
           Some (Wrapped (LibError "connection reset by peer")
                   "could not connect to app store server")),
          logged productionReceiptVerificationURL receipt
            (world production_client)) /\
  log (logged productionReceiptVerificationURL receipt
         (world production_client))
  = log (world production_client) ++ [sent productionReceiptVerificationURL].
Proof.
  apply (Verify_first_failure (E := externals reset (answer zero))
           1%positive tt (Some receipt) receipt production_client
           (world production_client) _ None
           (Some (Wrapped (LibError "connection reset by peer")
                    "could not connect to app store server")));
    [reflexivity | reflexivity | reflexivity | left; reflexivity].
Defined.

Lemma Verify_marshal_failure_witness :
  Verify (E := externals (answer seven) (answer zero))
    1%positive tt None (world production_client)
  = Some ((None, None,
           Some (Wrapped (LibError "json: unsupported type")
                   "could not marshal receipt request")),
          world production_client).
Proof.
  apply (Verify_marshal_failure (E := externals (answer seven) (answer zero))).
  reflexivity.
Defined.

(** The text ["7"] between a line feed and a carriage return decodes as
    ["7"] does. *)
Lemma parseResponse_strips_control_witness :
  parseResponse (E := externals (answer seven) (answer zero))
    (Some (encode_runes [0x0A; 0x37; 0x0D]))
  = (Some 21007, None).
Proof.
  destruct (parseResponse_strips_control
              (E := externals (answer seven) (answer zero))
              (encode_runes [0x0A; 0x37; 0x0D]))
    as (_ & _ & _ & _ & Htext).
  destruct (Htext [0x0A; 0x37; 0x0D]) as [_ Hresp];
    [repeat constructor | reflexivity |].
  apply Hresp. vm_compute. reflexivity.
Defined.

(** The production URL answers 21007 and the sandbox URL answers text that
    does not decode: the resend's raw body comes back with the decode
    error. *)
Lemma Verify_decode_failure_witness :
  Verify (E := externals (answer seven) (answer receipt))
    1%positive tt (Some receipt) (world production_client)
  = Some ((Some receipt, None,
           Some (Wrapped (LibError "unexpected end of JSON input")
                   "could not unmarshal app store response")),
          logged sandboxReceiptVerificationURL receipt
            (logged productionReceiptVerificationURL receipt
               (world production_client))).
Proof.
  apply (Verify_decode_failure (E := externals (answer seven) (answer receipt))
           1%positive tt (Some receipt) receipt production_client
           (world production_client)
           (logged productionReceiptVerificationURL receipt
              (world production_client))
           seven eq_refl eq_refl eq_refl)
    with (resp1 := 21007) (url2 := sandboxReceiptVerificationURL).
  - vm_compute. reflexivity.
  - reflexivity.
  - left. repeat split.
  - reflexivity.
  - vm_compute. reflexivity.
Defined.

End Runs.

(** ** Further properties: chains of configuration calls *)

Lemma chain_app (ms1 ms2 : list mutator) (c : loc) (w : World) :
  chain (ms1 ++ ms2) c w
  = match chain ms1 c w with
    | Some (c', w') => chain ms2 c' w'
    | None => None
    end.
Proof.
  revert c w. induction ms1 as [|m ms1 IH]; intros c w; [reflexivity|].
  cbn [app chain]. unfold bind.
  destruct (call_mutator m c w) as [[c' w']|]; [apply IH | reflexivity].
Qed.

(** One configuration call on a client that exists: the client comes back,
    with the field the call sets and the other field as it was; the log, the
    other clients and the set of clients are as before. *)
Lemma call_mutator_run (m : mutator) (c : loc) (v : client) (w : World) :
  heap w !! c = Some v ->
  exists w' v',
    call_mutator m c w = Some (c, w') /\
    heap w' !! c = Some v' /\
    log w' = log w /\
    (forall c', c' <> c -> heap w' !! c' = heap w !! c') /\
    dom (heap w') = dom (heap w) /\
    v' = match m with
         | CallOnSandboxEnv =>
           {| verificationURL := sandboxReceiptVerificationURL;
              autofixEnvironment := autofixEnvironment v |}
         | CallOnProductionEnv =>
           {| verificationURL := productionReceiptVerificationURL;
              autofixEnvironment := autofixEnvironment v |}
         | CallWithoutEnvAutoFix =>
           {| verificationURL := verificationURL v;
              autofixEnvironment := false |}
         end.
Proof.
  intros Hc.
  assert (Hdom : forall v', dom (<[c := v']> (heap w)) = dom (heap w)).
  { intros v'. rewrite dom_insert_L.
    apply subseteq_union_1_L, singleton_subseteq_l, elem_of_dom. eauto. }
  destruct m; cbn [call_mutator];
    [rewrite (OnSandboxEnv_run c v w Hc)
    |rewrite (OnProductionEnv_run c v w Hc)
    |rewrite (WithoutEnvAutoFix_run c v w Hc)];
    eexists _, _; (split; [reflexivity|]); cbn [heap log];
    (split; [apply lookup_insert_eq|]); (split; [reflexivity|]);
    (split; [intros c' Hne; apply lookup_insert_ne; congruence|]);
    (split; [apply Hdom | reflexivity]).
Qed.

(** X1. A chain of configuration calls makes no transport call, touches no
    client but its own and creates none. *)
Theorem chain_frame (ms : list mutator) (c : loc) (v : client) (w : World) :
  heap w !! c = Some v ->
  exists w',
    chain ms c w = Some (c, w') /\
    log w' = log w /\
    (forall c', c' <> c -> heap w' !! c' = heap w !! c') /\
    dom (heap w') = dom (heap w).
Proof.
  revert v w. induction ms as [|m ms IH]; intros v w Hc.
  - exists w. repeat split; reflexivity.
  - destruct (call_mutator_run m c v w Hc)
      as (w1 & v1 & Hm & Hc1 & Hl1 & Hf1 & Hd1 & _).
    destruct (IH v1 w1 Hc1) as (w' & Hch & Hl & Hf & Hd).
    exists w'. cbn [chain]. unfold bind. rewrite Hm.
    split; [exact Hch|]. split; [congruence|]. split; [|congruence].
    intros c' Hne. rewrite (Hf c' Hne). apply Hf1, Hne.
Qed.

(** X2. Auto-fix cannot be switched back on: after a chain of configuration
    calls the flag is set exactly when it was set before and the chain has
    no [WithoutEnvAutoFix]. *)
Theorem chain_autofix (ms : list mutator) (c : loc) (v : client) (w : World) :
  heap w !! c = Some v ->
  exists w' v',
    chain ms c w = Some (c, w') /\
    heap w' !! c = Some v' /\
    (autofixEnvironment v' = true <->
     autofixEnvironment v = true /\ ~ In CallWithoutEnvAutoFix ms).
Proof.
  revert v w. induction ms as [|m ms IH]; intros v w Hc.
  - exists w, v. split; [reflexivity|]. split; [exact Hc|]. cbn. tauto.
  - destruct (call_mutator_run m c v w Hc)
      as (w1 & v1 & Hm & Hc1 & _ & _ & _ & Hv1).
    destruct (IH v1 w1 Hc1) as (w' & v' & Hch & Hc' & Hiff).
    exists w', v'. cbn [chain]. unfold bind. rewrite Hm.
    split; [exact Hch|]. split; [exact Hc'|].
    rewrite Hiff, Hv1. cbn [In].
    destruct m; cbn [autofixEnvironment].
    + assert (CallOnSandboxEnv <> CallWithoutEnvAutoFix) by discriminate. tauto.
    + assert (CallOnProductionEnv <> CallWithoutEnvAutoFix) by discriminate. tauto.
    + split; [intros [H _]; discriminate|].
      intros [_ H]. destruct H. left. reflexivity.
Qed.

Lemma chain_total (ms : list mutator) (c : loc) (v : client) (w : World) :
  heap w !! c = Some v ->
  exists w' v', chain ms c w = Some (c, w') /\ heap w' !! c = Some v'.
Proof.
  revert v w. induction ms as [|m ms IH]; intros v w Hc.
  - exists w, v. auto.
  - destruct (call_mutator_run m c v w Hc) as (w1 & v1 & Hm & Hc1 & _).
    destruct (IH v1 w1 Hc1) as (w' & v' & Hch & Hc').
    exists w', v'. cbn [chain]. unfold bind. rewrite Hm. auto.
Qed.

Lemma chain_keep_url (ms : list mutator) (c : loc) (v : client) (w : World) :
  Forall (fun m => m = CallWithoutEnvAutoFix) ms ->
  heap w !! c = Some v ->
  exists w' v',
    chain ms c w = Some (c, w') /\ heap w' !! c = Some v' /\
    verificationURL v' = verificationURL v.
Proof.
  revert v w. induction ms as [|m ms IH]; intros v w Hall Hc.
  - exists w, v. auto.
  - inversion Hall as [|? ? -> Hall']; subst.
    destruct (call_mutator_run CallWithoutEnvAutoFix c v w Hc)
      as (w1 & v1 & Hm & Hc1 & _ & _ & _ & Hv1).
    destruct (IH v1 w1 Hall' Hc1) as (w' & v' & Hch & Hc' & Hu).
    exists w', v'. cbn [chain]. unfold bind. rewrite Hm.
    split; [exact Hch|]. split; [exact Hc'|]. rewrite Hu, Hv1. reflexivity.
Qed.

(** The URL after a chain that ends in the call [m] and then only
    [WithoutEnvAutoFix] calls is the URL [m] leaves. *)
Lemma chain_ends_with (ms1 ms2 : list mutator) (m : mutator) (c : loc)
    (v : client) (w : World) :
  heap w !! c = Some v ->
  Forall (fun m => m = CallWithoutEnvAutoFix) ms2 ->
  exists w' v' v0,
    chain (ms1 ++ m :: ms2) c w = Some (c, w') /\ heap w' !! c = Some v' /\
    verificationURL v'
    = match m with
      | CallOnSandboxEnv => sandboxReceiptVerificationURL
      | CallOnProductionEnv => productionReceiptVerificationURL
      | CallWithoutEnvAutoFix => verificationURL v0
      end.
Proof.
  intros Hc Hall.
  destruct (chain_total ms1 c v w Hc) as (w1 & v1 & Hch1 & Hc1).
  destruct (call_mutator_run m c v1 w1 Hc1)
    as (w2 & v2 & Hm & Hc2 & _ & _ & _ & Hv2).
  destruct (chain_keep_url ms2 c v2 w2 Hall Hc2) as (w' & v' & Hch2 & Hc' & Hu).
  exists w', v', v1. rewrite chain_app, Hch1. cbn [chain]. unfold bind.
  rewrite Hm. split; [exact Hch2|]. split; [exact Hc'|].
  rewrite Hu, Hv2. destruct m; reflexivity.
Qed.

(** X3. The last endpoint call of a chain decides the URL: after
    [OnSandboxEnv] (or [OnProductionEnv]) followed only by
    [WithoutEnvAutoFix] calls the client is on the sandbox (or production)
    URL, whatever came before; a chain without endpoint calls leaves the URL
    as it was. *)
Theorem chain_last_endpoint (ms : list mutator) (c : loc) (v : client) (w : World) :
  heap w !! c = Some v ->
  exists w' v',
    chain ms c w = Some (c, w') /\
    heap w' !! c = Some v' /\
    (forall ms1 ms2,
       ms = ms1 ++ CallOnSandboxEnv :: ms2 ->
       Forall (fun m => m = CallWithoutEnvAutoFix) ms2 ->
       verificationURL v' = sandboxReceiptVerificationURL) /\
    (forall ms1 ms2,
       ms = ms1 ++ CallOnProductionEnv :: ms2 ->
       Forall (fun m => m = CallWithoutEnvAutoFix) ms2 ->
       verificationURL v' = productionReceiptVerificationURL) /\
    (Forall (fun m => m = CallWithoutEnvAutoFix) ms ->
     verificationURL v' = verificationURL v).
Proof.
  intros Hc. destruct (chain_total ms c v w Hc) as (w' & v' & Hch & Hc').
  exists w', v'. split; [exact Hch|]. split; [exact Hc'|].
  split; [|split].
  - intros ms1 ms2 -> Hall.
    destruct (chain_ends_with ms1 ms2 CallOnSandboxEnv c v w Hc Hall)
      as (w2 & v2 & _ & Hch2 & Hc2 & Hu).
    rewrite Hch in Hch2. injection Hch2 as <-. congruence.
  - intros ms1 ms2 -> Hall.
    destruct (chain_ends_with ms1 ms2 CallOnProductionEnv c v w Hc Hall)
      as (w2 & v2 & _ & Hch2 & Hc2 & Hu).
    rewrite Hch in Hch2. injection Hch2 as <-. congruence.
  - intros Hall.
    destruct (chain_keep_url ms c v w Hall Hc) as (w2 & v2 & Hch2 & Hc2 & Hu).
    rewrite Hch in Hch2. injection Hch2 as <-. congruence.
Qed.

(** ** Further properties: what the decoder is given *)

Lemma DecodeRune_invalid_lead (c0 : byte) (rest : list byte) :
  0x80 <= Z_of_byte c0 < 0xC2 \/ 0xF5 <= Z_of_byte c0 ->
  utf8.DecodeRune (c0 :: rest) = (utf8.RuneError, 1%nat).
Proof.
  intros H. decode_lead c0; rune_arith; try reflexivity; lia.
Qed.

Lemma runes_ascii (body : list byte) :
  Forall (fun b => Z_of_byte b < 0x80) body ->
  runes body = map Z_of_byte body.
Proof.
  induction 1 as [|b body Hb _ IH]; [reflexivity|].
  rewrite runes_cons, (DecodeRune_1 b body Hb). cbn [fst snd map].
  change (drop 1 (b :: body)) with body. rewrite IH. reflexivity.
Qed.

Lemma filter_twice {A : Type} (f : A -> bool) (l : list A) :
  List.filter f (List.filter f l) = List.filter f l.
Proof.
  induction l as [|a l IH]; [reflexivity|]. cbn [List.filter].
  destruct (f a) eqn:Hf; [|exact IH]. cbn [List.filter]. rewrite Hf, IH.
  reflexivity.
Qed.

Section Decoder.

Context `{E : Externals}.

(** X4. On an all-ASCII body the decoder is given the body without the
    bytes 00..1F and 7F, every other byte in place: line feeds and tabs go,
    spaces stay. *)
Theorem parseResponse_ascii (body : list byte) :
  Forall (fun b => Z_of_byte b < 0x80) body ->
  let kept := List.filter
                (fun b => (0x1F <? Z_of_byte b) && negb (Z_of_byte b =? 0x7F))
                body in
  bytes.Map dropControl body = kept /\
  parseResponse (Some body) = parseResponse (Some kept).
Proof.
  intros Hascii kept.
  assert (Hmap : forall l, Forall (fun b => Z_of_byte b < 0x80) l ->
    bytes.Map dropControl l
    = List.filter (fun b => (0x1F <? Z_of_byte b) && negb (Z_of_byte b =? 0x7F)) l).
  { intros l Hl. rewrite Map_dropControl, (runes_ascii l Hl).
    induction Hl as [|b l Hb _ IH]; [reflexivity|].
    cbn [map List.filter]. pose proof (Z_of_byte_range b) as Hr.
    assert (Hctl : unicode.IsControl (Z_of_byte b)
                   = negb ((0x1F <? Z_of_byte b) && negb (Z_of_byte b =? 0x7F))).
    { unfold unicode.IsControl, uint32, unicode.MaxLatin1.
      rewrite Z_of_byte_of_Z, (Z.mod_small (Z_of_byte b) (2 ^ 32)) by lia.
      rewrite (Z.mod_small (Z_of_byte b) 256) by lia.
      destruct (Z.leb_spec (Z_of_byte b) 255); [|lia].
      destruct (Z.leb_spec (Z_of_byte b) 31), (Z.ltb_spec 31 (Z_of_byte b)),
        (Z.leb_spec 127 (Z_of_byte b)), (Z.leb_spec (Z_of_byte b) 159),
        (Z.eqb_spec (Z_of_byte b) 127); cbn; try reflexivity; lia. }
    rewrite Hctl, negb_involutive.
    destruct ((0x1F <? Z_of_byte b) && negb (Z_of_byte b =? 0x7F)); [|exact IH].
    unfold encode_runes in *. cbn [map concat]. rewrite IH.
    unfold utf8.encode, uint32, utf8.rune1Max.
    rewrite (Z.mod_small (Z_of_byte b) (2 ^ 32)) by lia.
    destruct (Z.leb_spec (Z_of_byte b) 127); [|lia].
    rewrite byte_of_Z_of_byte. reflexivity. }
  assert (Hkept : Forall (fun b => Z_of_byte b < 0x80) kept).
  { subst kept. clear Hmap. induction Hascii as [|b l Hb _ IH]; [constructor|].
    cbn [List.filter]. destruct (_ && _); [constructor|]; assumption. }
  split; [apply Hmap, Hascii|].
  unfold parseResponse. rewrite !elems_Some.
  rewrite (Hmap body Hascii), (Hmap kept Hkept).
  subst kept. rewrite filter_twice. reflexivity.
Qed.

(** X5. Stripping is idempotent: a body that went through the stripping
    once is decoded as it is. *)
Theorem parseResponse_stripped (body : list byte) :
  bytes.Map dropControl (bytes.Map dropControl body) = bytes.Map dropControl body /\
  parseResponse (Some (bytes.Map dropControl body)) = parseResponse (Some body).
Proof.
  assert (H : bytes.Map dropControl (bytes.Map dropControl body)
              = bytes.Map dropControl body).
  { rewrite (Map_dropControl (bytes.Map dropControl body)).
    rewrite runes_Map_dropControl, filter_twice. symmetry. apply Map_dropControl. }
  split; [exact H|]. unfold parseResponse. rewrite !elems_Some, H. reflexivity.
Qed.

(** X6. A byte that cannot start a UTF-8 sequence (80..C1, F5..FF) is not
    dropped: the decoder finds the three bytes of U+FFFD in its place.  This
    holds for the bytes 80..9F too, which are control characters only as
    code points, not as raw bytes. *)
Theorem parseResponse_invalid_byte (c0 : byte) (rest : list byte) :
  0x80 <= Z_of_byte c0 < 0xC2 \/ 0xF5 <= Z_of_byte c0 ->
  bytes.Map dropControl (c0 :: rest)
  = [byte_of_Z 0xEF; byte_of_Z 0xBF; byte_of_Z 0xBD] ++ bytes.Map dropControl rest.
Proof.
  intros H. rewrite !Map_runes, runes_cons.
  rewrite (DecodeRune_invalid_lead c0 rest H). cbn [fst snd map concat].
  change (drop 1 (c0 :: rest)) with rest. reflexivity.
Qed.

(** X7. Whatever the body, the decoder is given well-formed UTF-8: the
    stripped bytes are the encoding of their own code points, all of them
    valid and none a control character. *)
Theorem parseResponse_well_formed (body : list byte) :
  let stripped := bytes.Map dropControl body in
  encode_runes (runes stripped) = stripped /\
  Forall (fun r => utf8.ValidRune r = true /\ unicode.IsControl r = false)
         (runes stripped).
Proof.
  intros stripped. subst stripped. rewrite runes_Map_dropControl. split.
  - symmetry. apply Map_dropControl.
  - pose proof (runes_valid body) as Hv.
    induction Hv as [|r rs Hr _ IH]; [constructor|].
    cbn [List.filter]. destruct (unicode.IsControl r) eqn:Hc; cbn [negb];
      [exact IH | constructor; auto].
Qed.

End Decoder.

(** ** Further properties: the outcome of [Verify] *)

Section Outcome.

Context `{E : Externals}.

Lemma post_cases (c : loc) (ctx : context_Context) (buf : Reader) (url : string)
    (w : World) :
  exists body err,
    post c ctx buf url w = Some ((body, err), logged url (unread buf) w) /\
    ((exists raw, body = Some raw /\ err = None) \/
     (exists e, body = None /\ err = Some e /\ transport_error url e)).
Proof.
  unfold post, transport_error. run.
  destruct (http_NewRequest "POST" url) as [e|] eqn:Hn.
  { eexists _, _. split; [reflexivity|]. right. eauto 8. }
  destruct (network _ _ _) as [e|code line [b|e]].
  - eexists _, _. split; [reflexivity|]. right. eauto 10.
  - destruct (negb (code =? StatusOK)); eexists _, _;
      (split; [reflexivity|]); [right; eauto 10 | left; eauto].
  - destruct (negb (code =? StatusOK)); eexists _, _;
      (split; [reflexivity|]); right; eauto 10.
Qed.

Lemma queryStore_cases (c : loc) (ctx : context_Context) (buf : Reader)
    (url : string) (w : World) :
  exists body resp err,
    queryStore c ctx buf url w
    = Some ((body, resp, err), logged url (unread buf) w) /\
    attempt_outcome url body resp err.
Proof.
  destruct (post_cases c ctx buf url w) as (body & err & Hp & Hcase).
  rewrite (queryStore_post _ _ _ _ _ _ _ _ Hp).
  unfold attempt_of, attempt_outcome.
  destruct Hcase as [(raw & -> & ->)|(e & -> & -> & He)].
  - unfold parseResponse. rewrite elems_Some.
    destruct (json_Unmarshal _) as [r|e0] eqn:Hd; cbn.
    + eexists _, _, _. split; [reflexivity|]. left. eauto 8.
    + eexists _, _, _. split; [reflexivity|]. right; left. eauto 8.
  - eexists _, _, _. split; [reflexivity|]. right; right. eauto 8.
Qed.

(** What [Verify] returns is the marshalling failure or the outcome of one
    of its attempts. *)
Lemma Verify_outcome (c : loc) (ctx : context_Context) (req : ReceiptRequest)
    (v : client) (w : World) :
  heap w !! c = Some v ->
  exists body resp err w',
    Verify c ctx req w = Some ((body, resp, err), w') /\
    ((exists e0, json_Marshal req = Fail e0 /\ body = None /\ resp = None /\
                 err = Some (Wrapped e0 "could not marshal receipt request")) \/
     (exists url, attempt_outcome url body resp err)).
Proof.
  intros Hc. destruct (json_Marshal req) as [reqJSON|e0] eqn:Hm.
  2:{ eexists _, _, _, _. unfold Verify. rewrite Hm.
      split; [reflexivity|]. left. eauto. }
  destruct (queryStore_cases c ctx (NewReader reqJSON) (verificationURL v) w)
    as (b1 & r1 & e1 & Hq & Hcase).
  rewrite (Verify_after_first c ctx req reqJSON v w _ _ _ _ Hm Hc Hq).
  assert (Hfirst : exists body resp err w',
    Some ((b1, r1, e1), logged (verificationURL v) (unread (NewReader reqJSON)) w)
    = Some ((body, resp, err), w') /\
    ((exists e0, Ok reqJSON = Fail e0 /\ body = None /\ resp = None /\
                 err = Some (Wrapped e0 "could not marshal receipt request")) \/
     (exists url, attempt_outcome url body resp err))).
  { eexists _, _, _, _. split; [reflexivity|]. right. eauto. }
  destruct e1 as [e1|]; [exact Hfirst|].
  destruct r1 as [r|].
  2:{ destruct Hcase as [(? & ? & _ & [=] & _)|[(? & ? & _ & _ & [=] & _)
                        |(? & _ & _ & [=] & _)]]. }
  destruct (autofixEnvironment v && fst (resend_decision v (Status r)));
    [|exact Hfirst].
  destruct (queryStore_cases c ctx (NewReader reqJSON)
              (snd (resend_decision v (Status r)))
              (logged (verificationURL v) (unread (NewReader reqJSON)) w))
    as (b2 & r2 & e2 & Hq2 & Hcase2).
  rewrite Hq2. eexists _, _, _, _. split; [reflexivity|]. right. eauto.
Qed.


(** X9. The errors of [Verify]: with a nil body, the wrapped marshalling
    error or a transport error (the error of building the request as it is,
    a wrapped connection error, the HTTP status error, a wrapped read
    error); with a body, the wrapped error of decoding that body. *)
Theorem Verify_error_taxonomy (c : loc) (ctx : context_Context)
    (req : ReceiptRequest) (v : client) (w : World) :
  heap w !! c = Some v ->
  exists body resp err w',
    Verify c ctx req w = Some ((body, resp, err), w') /\
    forall e, err = Some e ->
      (body = None /\
       ((exists e0, json_Marshal req = Fail e0 /\
                    e = Wrapped e0 "could not marshal receipt request") \/
        (exists url, transport_error url e))) \/
      (exists raw e0,
         body = Some raw /\
         json_Unmarshal (bytes.Map dropControl raw) = Fail e0 /\
         e = Wrapped e0 "could not unmarshal app store response").
Proof.
  intros Hc.
  destruct (Verify_outcome c ctx req v w Hc) as (body & resp & err & w' & HV & Hcase).
  exists body, resp, err, w'. split; [exact HV|]. intros e He.
  destruct Hcase as [(e0 & Hm & -> & -> & ->)|[url Hout]].
  - injection He as <-. left. split; [reflexivity|]. left. eauto.
  - destruct Hout as [(raw & r & -> & -> & -> & Hd)
                     |[(raw & e0 & -> & -> & -> & Hd)
                      |(e1 & -> & -> & -> & Ht)]].
    + discriminate.
    + injection He as <-. right. eauto.
    + injection He as <-. left. split; [reflexivity|]. right. eauto.
Qed.

(** X10. The calls of [Verify] for a request that serializes: one call to
    the configured URL, or that call followed by one to a different URL,
    which is one of the two constants; every call carries the same
    serialized request.  The request is never sent twice to the same URL. *)
Theorem Verify_calls (c : loc) (ctx : context_Context) (req : ReceiptRequest)
    (reqJSON : list byte) (v : client) (w : World) :
  heap w !! c = Some v ->
  json_Marshal req = Ok reqJSON ->
  exists result w',
    Verify c ctx req w = Some (result, w') /\
    (log w' = log w ++ [{| call_url := verificationURL v;
                           call_body := reqJSON |}] \/
     exists url2,
       url2 <> verificationURL v /\
       (url2 = sandboxReceiptVerificationURL \/
        url2 = productionReceiptVerificationURL) /\
       log w' = log w ++ [{| call_url := verificationURL v;
                             call_body := reqJSON |};
                          {| call_url := url2; call_body := reqJSON |}]).
Proof.
  intros Hc Hm.
  destruct (queryStore_run c ctx (NewReader reqJSON) (verificationURL v) w)
    as (b1 & r1 & e1 & Hq & Hr1).
  rewrite unread_NewReader in Hq.
  rewrite (Verify_after_first c ctx req reqJSON v w _ _ _ _ Hm Hc Hq).
  assert (Hone : exists result w',
    Some ((b1, r1, e1), logged (verificationURL v) reqJSON w) = Some (result, w') /\
    (log w' = log w ++ [{| call_url := verificationURL v; call_body := reqJSON |}] \/
     exists url2,
       url2 <> verificationURL v /\
       (url2 = sandboxReceiptVerificationURL \/
        url2 = productionReceiptVerificationURL) /\
       log w' = log w ++ [{| call_url := verificationURL v; call_body := reqJSON |};
                          {| call_url := url2; call_body := reqJSON |}])).
  { eexists _, _. split; [reflexivity|]. left. reflexivity. }
  destruct e1 as [e1|]; [exact Hone|].
  destruct (Hr1 eq_refl) as [r ->].
  destruct (autofixEnvironment v); cbn [andb]; [|exact Hone].
  destruct (resend_decision_cases v (Status r))
    as [(_ & Hu & ->)|[(_ & Hu & ->)|(_ & _ & ->)]]; cbn [fst snd];
    [| |exact Hone].
  - destruct (queryStore_run c ctx (NewReader reqJSON)
                sandboxReceiptVerificationURL
                (logged (verificationURL v) reqJSON w)) as (b2 & r2 & e2 & Hq2 & _).
    rewrite unread_NewReader in Hq2. rewrite Hq2.
    eexists _, _. split; [reflexivity|]. right.
    exists sandboxReceiptVerificationURL.
    split; [rewrite Hu; exact endpoints_differ|]. split; [left; reflexivity|].
    cbn [logged log]. rewrite <- app_assoc. reflexivity.
  - destruct (queryStore_run c ctx (NewReader reqJSON)
                productionReceiptVerificationURL
                (logged (verificationURL v) reqJSON w)) as (b2 & r2 & e2 & Hq2 & _).
    rewrite unread_NewReader in Hq2. rewrite Hq2.
    eexists _, _. split; [reflexivity|]. right.
    exists productionReceiptVerificationURL.
    split; [rewrite Hu; intros Heq; exact (endpoints_differ (eq_sym Heq))|].
    split; [right; reflexivity|].
    cbn [logged log]. rewrite <- app_assoc. reflexivity.
Qed.

(** X11. A first answer whose HTTP status is not 200 ends the call: [Verify]
    returns the HTTP status error with the status line in it, a nil body and
    a nil response after that one call, whatever body came with the answer
    and whether auto-fix is enabled or not. *)
Theorem Verify_http_status (c : loc) (ctx : context_Context)
    (req : ReceiptRequest) (reqJSON : list byte) (v : client) (w : World)
    (code : Z) (line : string) (read : result (list byte)) :
  heap w !! c = Some v ->
  json_Marshal req = Ok reqJSON ->
  http_NewRequest "POST" (verificationURL v) = None ->
  network (log w) ctx
    {| Method := "POST"; URL := verificationURL v;
       ContentType := "application/json"; Body := reqJSON |}
  = DoResponse code line read ->
  code <> StatusOK ->
  Verify c ctx req w
  = Some ((None, None, Some (New ("app store http error (" ++ line ++ ")"))),
          logged (verificationURL v) reqJSON w).
Proof.
  intros Hc Hm Hn Hnet Hcode.
  assert (Hp : post c ctx (NewReader reqJSON) (verificationURL v) w
               = Some ((None, Some (New ("app store http error (" ++ line ++ ")"))),
                       logged (verificationURL v) reqJSON w)).
  { unfold post. run. rewrite Hn. rewrite unread_NewReader, Hnet.
    apply Z.eqb_neq in Hcode. rewrite Hcode. reflexivity. }
  pose proof (queryStore_post _ _ _ _ _ _ _ _ Hp) as Hq. cbn [attempt_of] in Hq.
  rewrite (Verify_after_first c ctx req reqJSON v w _ _ _ _ Hm Hc Hq).
  reflexivity.
Qed.

(** X12. When the resend fails in the transport, the first attempt's body
    and response are gone: [Verify] returns a nil body, a nil response and
    the error of the resend. *)
Theorem Verify_resend_failure (c : loc) (ctx : context_Context)
    (req : ReceiptRequest) (reqJSON : list byte) (v : client) (w w1 w2 : World)
    (body1 : slice) (resp1 : ReceiptResponse) (url2 : string) (e : error) :
  heap w !! c = Some v ->
  json_Marshal req = Ok reqJSON ->
  autofixEnvironment v = true ->
  queryStore c ctx (NewReader reqJSON) (verificationURL v) w
  = Some ((body1, Some resp1, None), w1) ->
  (Status resp1 = ReceiptResponseStatusSandboxReceiptSentToProduction /\
   verificationURL v = productionReceiptVerificationURL /\
   url2 = sandboxReceiptVerificationURL
   \/
   Status resp1 = ReceiptResponseStatusProductionReceiptSentToSandbox /\
   verificationURL v = sandboxReceiptVerificationURL /\
   url2 = productionReceiptVerificationURL) ->
  post c ctx (NewReader reqJSON) url2 w1 = Some ((None, Some e), w2) ->
  Verify c ctx req w = Some ((None, None, Some e), w2).
Proof.
  intros Hc Hm Hfix Hq Hcond Hp2.
  rewrite (Verify_after_first c ctx req reqJSON v w _ _ _ _ Hm Hc Hq), Hfix.
  cbn [andb].
  pose proof (queryStore_post _ _ _ _ _ _ _ _ Hp2) as Hq2. cbn [attempt_of] in Hq2.
  destruct (resend_decision_cases v (Status resp1))
    as [(Hs & Hu & ->)|[(Hs & Hu & ->)|(Hn1 & Hn2 & ->)]]; cbn [fst snd].
  - destruct Hcond as [(_ & _ & ->)|(Hs' & _ & _)]; [exact Hq2|].
    rewrite Hs in Hs'. discriminate.
  - destruct Hcond as [(Hs' & _ & _)|(_ & _ & ->)]; [|exact Hq2].
    rewrite Hs in Hs'. discriminate.
  - destruct Hcond as [(? & ? & _)|(? & ? & _)]; tauto.
Qed.

Lemma queryStore_same_log (c : loc) (ctx : context_Context) (buf : Reader)
    (url : string) (w1 w2 : World) :
  log w1 = log w2 ->
  exists body resp err,
    queryStore c ctx buf url w1
    = Some ((body, resp, err), logged url (unread buf) w1) /\
    queryStore c ctx buf url w2
    = Some ((body, resp, err), logged url (unread buf) w2) /\
    (err = None -> exists r, resp = Some r).
Proof.
  intros Hlog.
  destruct (queryStore_run c ctx buf url w1) as (b & r & e & Hq & Hr).
  exists b, r, e. split; [exact Hq|]. split; [|exact Hr].
  revert Hq. unfold queryStore, post. run. rewrite Hlog.
  destruct (http_NewRequest "POST" url) as [e0|].
  { intros [= <- <- <-]. reflexivity. }
  destruct (network _ _ _) as [e0|code line [raw|e0]].
  - intros [= <- <- <-]. reflexivity.
  - destruct (negb (code =? StatusOK)).
    + intros [= <- <- <-]. reflexivity.
    + destruct (parseResponse (Some raw)) as [r0 e0].
      intros [= <- <- <-]. reflexivity.
  - destruct (negb (code =? StatusOK)); intros [= <- <- <-]; reflexivity.
Qed.

(** X13. [Verify] reads its own client only: in two states that agree on
    the client and on the calls made so far it returns the same result and
    makes the same calls, whatever other clients there are, and it leaves
    both stores as they were. *)
Theorem Verify_reads_own_client (c : loc) (ctx : context_Context)
    (req : ReceiptRequest) (v : client) (w1 w2 : World) :
  heap w1 !! c = Some v ->
  heap w2 !! c = Some v ->
  log w1 = log w2 ->
  exists result w1' w2',
    Verify c ctx req w1 = Some (result, w1') /\
    Verify c ctx req w2 = Some (result, w2') /\
    log w1' = log w2' /\
    heap w1' = heap w1 /\
    heap w2' = heap w2.
Proof.
  intros Hc1 Hc2 Hlog. destruct (json_Marshal req) as [reqJSON|e0] eqn:Hm.
  2:{ unfold Verify. rewrite Hm. eexists _, _, _.
      split; [reflexivity|]. split; [reflexivity|]. auto. }
  destruct (queryStore_same_log c ctx (NewReader reqJSON) (verificationURL v)
              w1 w2 Hlog) as (b & r & e & Hq1 & Hq2 & Hr).
  rewrite (Verify_after_first c ctx req reqJSON v w1 _ _ _ _ Hm Hc1 Hq1).
  rewrite (Verify_after_first c ctx req reqJSON v w2 _ _ _ _ Hm Hc2 Hq2).
  set (w1a := logged (verificationURL v) (unread (NewReader reqJSON)) w1).
  set (w2a := logged (verificationURL v) (unread (NewReader reqJSON)) w2).
  assert (Hloga : log w1a = log w2a) by (cbn [w1a w2a logged log]; congruence).
  assert (Hone : exists result w1' w2',
    Some ((b, r, e), w1a) = Some (result, w1') /\
    Some ((b, r, e), w2a) = Some (result, w2') /\
    log w1' = log w2' /\ heap w1' = heap w1 /\ heap w2' = heap w2).
  { eexists _, _, _. split; [reflexivity|]. split; [reflexivity|]. auto. }
  destruct e as [e|]; [exact Hone|].
  destruct (Hr eq_refl) as [r0 ->].
  destruct (autofixEnvironment v && fst (resend_decision v (Status r0)));
    [|exact Hone].
  destruct (queryStore_same_log c ctx (NewReader reqJSON)
              (snd (resend_decision v (Status r0))) w1a w2a Hloga)
    as (b2 & r2 & e2 & Hq1' & Hq2' & _).
  rewrite Hq1', Hq2'. eexists _, _, _.
  split; [reflexivity|]. split; [reflexivity|]. split; [|auto].
  cbn [logged log]. rewrite Hloga. reflexivity.
Qed.

End Outcome.

(** ** The further properties at work *)

Module MoreRuns.

Import Demo Cases.

(** Client 1 is reconfigured; client 2 and the log are as they were. *)
Lemma chain_frame_witness :
  exists w',
    chain [CallOnSandboxEnv; CallWithoutEnvAutoFix] 1%positive two_clients
    = Some (1%positive, w') /\
    log w' = [] /\
    heap w' !! 2%positive = Some other_client.
Proof.
  destruct (chain_frame [CallOnSandboxEnv; CallWithoutEnvAutoFix] 1%positive
              production_client two_clients eq_refl)
    as (w' & Hch & Hl & Hf & _).
  exists w'. split; [exact Hch|]. split; [exact Hl|].
  rewrite Hf by discriminate. reflexivity.
Defined.

(** Endpoint calls after [WithoutEnvAutoFix] do not bring auto-fix back. *)
Lemma chain_autofix_witness :
  exists w' v',
    chain [CallWithoutEnvAutoFix; CallOnSandboxEnv; CallOnProductionEnv]
      1%positive (world production_client)
    = Some (1%positive, w') /\
    heap w' !! 1%positive = Some v' /\
    autofixEnvironment v' <> true.
Proof.
  destruct (chain_autofix
              [CallWithoutEnvAutoFix; CallOnSandboxEnv; CallOnProductionEnv]
              1%positive production_client (world production_client) eq_refl)
    as (w' & v' & Hch & Hc & Hiff).
  exists w', v'. split; [exact Hch|]. split; [exact Hc|].
  intros H. apply Hiff in H. destruct H as [_ Hn]. apply Hn. left. reflexivity.
Defined.

Lemma chain_last_endpoint_witness :
  exists w' v',
    chain [CallOnProductionEnv; CallOnSandboxEnv; CallWithoutEnvAutoFix]
      1%positive (world production_client)
    = Some (1%positive, w') /\
    heap w' !! 1%positive = Some v' /\
    verificationURL v' = sandboxReceiptVerificationURL.
Proof.
  destruct (chain_last_endpoint
              [CallOnProductionEnv; CallOnSandboxEnv; CallWithoutEnvAutoFix]
              1%positive production_client (world production_client) eq_refl)
    as (w' & v' & Hch & Hc & Hs & _).
  exists w', v'. split; [exact Hch|]. split; [exact Hc|].
  apply (Hs [CallOnProductionEnv] [CallWithoutEnvAutoFix]);
    [reflexivity | repeat constructor].
Defined.

(** An indented body with a trailing DEL: the line feed and the DEL go, the
    space stays. *)
Lemma parseResponse_ascii_witness :
  bytes.Map dropControl pretty = ["{"%byte; " "%byte; "}"%byte].
Proof.
  destruct (parseResponse_ascii (E := externals (answer seven) (answer zero))
              pretty) as [Hmap _].
  - repeat (constructor; [vm_compute; reflexivity|]). constructor.
  - rewrite Hmap. vm_compute. reflexivity.
Defined.

(** The raw byte 85 is no control character to the decoder. *)
Lemma parseResponse_invalid_byte_witness :
  bytes.Map dropControl (byte_of_Z 0x85 :: seven)
  = [byte_of_Z 0xEF; byte_of_Z 0xBF; byte_of_Z 0xBD; "7"%byte].
Proof.
  rewrite (parseResponse_invalid_byte (byte_of_Z 0x85) seven).
  - vm_compute. reflexivity.
  - left. vm_compute. split; [discriminate | reflexivity].
Defined.


Lemma Verify_error_taxonomy_witness :
  exists body resp err w',
    Verify (E := externals reset (answer zero))
      1%positive tt (Some receipt) (world production_client)
    = Some ((body, resp, err), w') /\
    err = Some (Wrapped (LibError "connection reset by peer")
                  "could not connect to app store server") /\
    body = None.
Proof.
  destruct (Verify_error_taxonomy (E := externals reset (answer zero))
              1%positive tt (Some receipt) production_client
              (world production_client) eq_refl)
    as (body & resp & err & w' & HV & Htax).
  exists body, resp, err, w'. split; [exact HV|].
  assert (He : err = Some (Wrapped (LibError "connection reset by peer")
                             "could not connect to app store server")).
  { vm_compute in HV. injection HV as _ _ <- _. reflexivity. }
  split; [exact He|].
  destruct (Htax _ He) as [[Hb _]|(raw & e0 & _ & _ & Hw)];
    [exact Hb | discriminate Hw].
Defined.

(** Both URLs answer with a mismatch status: one call to each. *)
Lemma Verify_calls_witness :
  exists result w',
    Verify (E := externals (answer seven) (answer eight))
      1%positive tt (Some receipt) (world production_client)
    = Some (result, w') /\
    log w' = [sent productionReceiptVerificationURL;
              sent sandboxReceiptVerificationURL].
Proof.
  destruct (Verify_calls (E := externals (answer seven) (answer eight))
              1%positive tt (Some receipt) receipt production_client
              (world production_client) eq_refl eq_refl)
    as (result & w' & HV & Hcalls).
  exists result, w'. split; [exact HV|].
  vm_compute in HV. injection HV as _ <-. reflexivity.
Defined.

(** A 503 whose body would decode to 21007: no resend, no body. *)
Lemma Verify_http_status_witness :
  Verify (E := externals unavailable (answer zero))
    1%positive tt (Some receipt) (world production_client)
  = Some ((None, None,
           Some (New "app store http error (503 Service Unavailable)")),
          logged productionReceiptVerificationURL receipt
            (world production_client)).
Proof.
  apply (Verify_http_status (E := externals unavailable (answer zero))
           1%positive tt (Some receipt) receipt production_client
           (world production_client) 503 "503 Service Unavailable" (Ok seven));
    [reflexivity | reflexivity | reflexivity | reflexivity | discriminate].
Defined.

(** The production URL answers 21007 and the sandbox URL is unreachable. *)
Lemma Verify_resend_failure_witness :
  Verify (E := externals (answer seven) reset)
    1%positive tt (Some receipt) (world production_client)
  = Some ((None, None,
           Some (Wrapped (LibError "connection reset by peer")
                   "could not connect to app store server")),
          logged sandboxReceiptVerificationURL receipt
            (logged productionReceiptVerificationURL receipt
               (world production_client))).
Proof.
  apply (Verify_resend_failure (E := externals (answer seven) reset)
           1%positive tt (Some receipt) receipt production_client
           (world production_client)
           (logged productionReceiptVerificationURL receipt
              (world production_client))
           _ (Some seven) 21007 sandboxReceiptVerificationURL);
    [reflexivity | reflexivity | reflexivity | vm_compute; reflexivity
    | left; repeat split | reflexivity].
Defined.

(** The same client alone and beside another one. *)
Lemma Verify_reads_own_client_witness :
  exists result w1' w2',
    Verify (E := externals (answer seven) (answer zero))
      1%positive tt (Some receipt) (world production_client)
    = Some (result, w1') /\
    Verify (E := externals (answer seven) (answer zero))
      1%positive tt (Some receipt) two_clients
    = Some (result, w2') /\
    log w1' = log w2' /\
    heap w1' = heap (world production_client) /\
    heap w2' = heap two_clients.
Proof.
  apply (Verify_reads_own_client (E := externals (answer seven) (answer zero))
           1%positive tt (Some receipt) production_client);
    reflexivity.
Defined.

End MoreRuns.
